(** * kataras/compress: header negotiation, codec registry, response
      decorator and request adapter, embedded from the Go sources.

    The model follows accept.go (negotiation), compress.go (registry,
    Reader, ResponseWriter) and handler.go (middleware).  Go strings are
    byte strings and are modelled by [string] (a list of 8-bit [ascii]);
    Go [int] is the 64-bit two's-complement integer of the usual server
    targets, with its wrap-around written out; [float64] is IEEE-754
    binary64, taken from the standard library's executable specification
    [SpecFloat] (precision 53, emax 1024). *)

From Stdlib Require Import ZArith Ascii Lia SpecFloat.
From Stdlib Require String.
From stdpp Require Import base gmap strings list.

Local Open Scope Z_scope.

(* ===================================================================== *)
(** ** Machine numbers *)

Module Int.
(** Go's [int] on a 64-bit target: results of [+], [-] and [*] wrap. *)
Definition size : Z := 64.
Definition wrap (z : Z) : Z :=
  (z + 2 ^ (size - 1)) mod 2 ^ size - 2 ^ (size - 1).
Definition add (a b : Z) : Z := wrap (a + b).
Definition sub (a b : Z) : Z := wrap (a - b).
Definition mul (a b : Z) : Z := wrap (a * b).
End Int.

Module Float64.
Definition prec : Z := 53.
Definition emax : Z := 1024.
Definition float64 : Type := spec_float.

(** Conversion [float64(n)] of an integer (round to nearest even). *)
Definition of_int (n : Z) : float64 := binary_normalize prec emax n 0 false.
Definition add (x y : float64) : float64 := SFadd prec emax x y.
Definition div (x y : float64) : float64 := SFdiv prec emax x y.
(** Go's [x < y], [x > y] and [x == y]: all false on NaN. *)
Definition ltb (x y : float64) : bool := SFltb x y.
Definition gtb (x y : float64) : bool := SFltb y x.
Definition eqb (x y : float64) : bool := SFeqb x y.

Definition zero : float64 := of_int 0.
Definition one : float64 := of_int 1.
Definition minus_one : float64 := of_int (-1).

Definition is_nan (x : float64) : bool :=
  match x with S754_nan => true | _ => false end.
End Float64.
Export Float64 (float64).

(* ===================================================================== *)
(** ** Byte strings *)

Definition byte_val (b : ascii) : Z := Z.of_N (N_of_ascii b).

(** [s[n:]] for [n] within bounds. *)
Fixpoint string_drop (n : nat) (s : string) : string :=
  match n, s with
  | O, _ => s
  | S n', String _ s' => string_drop n' s'
  | S _, EmptyString => EmptyString
  end.
Arguments string_drop : simpl never.

(** [strings.HasPrefix(s, p)]. *)
Fixpoint HasPrefix (s p : string) {struct p} : bool :=
  match p, s with
  | EmptyString, _ => true
  | String c p', String b s' => Ascii.eqb b c && HasPrefix s' p'
  | String _ _, EmptyString => false
  end.
Arguments HasPrefix : simpl nomatch.

(** [strings.IndexRune(s, rune(c)) >= 0] for an ASCII string [s] and a
    byte value [c]: a rune of 128 and above is encoded on two bytes that
    no ASCII string holds. *)
Fixpoint hasRune (s : string) (c : Z) : bool :=
  match s with
  | EmptyString => false
  | String b s' => (c <? 128) && (byte_val b =? c) || hasRune s' c
  end.

(* ===================================================================== *)
(** ** accept.go: parsing and negotiation of Accept-style headers *)

Definition IDENTITY : string := "identity".

(** Octet types from RFC 2616: the bits of [octetType]. *)
Definition isToken : Z := Z.shiftl 1 0.
Definition isSpace : Z := Z.shiftl 1 1.

(** The separator set of [init], written with the code of the double
    quote (34) and of the tab (9). *)
Definition separators : string :=
  String " " (String (ascii_of_nat 9) (String (ascii_of_nat 34)
    "(),/:;<=>?@[]\{}")).
Definition spaces : string :=
  String " " (String (ascii_of_nat 9) (String (ascii_of_nat 13)
    (String (ascii_of_nat 10) EmptyString))).

(** The table [octetTypes] as [init] fills it, entry by entry. *)
Definition octetTypes (c : Z) : Z :=
  let isCtl := (c <=? 31) || (c =? 127) in
  let isChar := (0 <=? c) && (c <=? 127) in
  let isSeparator := hasRune separators c in
  let t := 0 in
  let t := if hasRune spaces c then Z.lor t isSpace else t in
  let t := if isChar && negb isCtl && negb isSeparator
           then Z.lor t isToken else t in
  t.

Fixpoint skipSpace (s : string) : string :=
  match s with
  | String b s' =>
      if Z.land (octetTypes (byte_val b)) isSpace =? 0 then s
      else skipSpace s'
  | EmptyString => s
  end.

Definition slash : ascii := "/"%char.

Fixpoint expectTokenSlash (s : string) : string * string :=
  match s with
  | String b s' =>
      if (Z.land (octetTypes (byte_val b)) isToken =? 0)
         && negb (Ascii.eqb b slash)
      then (EmptyString, s)
      else let '(token, rest) := expectTokenSlash s' in
           (String b token, rest)
  | EmptyString => (EmptyString, EmptyString)
  end.

(** The digit loop of [expectQuality]: [n] and [d] are Go [int]s. *)
Fixpoint qualityDigits (s : string) (n d : Z) : Z * Z * string :=
  match s with
  | String b s' =>
      if (byte_val b <? byte_val "0") || (byte_val b >? byte_val "9")
      then (n, d, s)
      else qualityDigits s'
             (Int.sub (Int.add (Int.mul n 10) (byte_val b)) (byte_val "0"))
             (Int.mul d 10)
  | EmptyString => (n, d, s)
  end.

(** The part of [expectQuality] after its switch, which has set [q] to
    0 or 1: an optional dot and fraction digits. *)
Definition expectFraction (q : float64) (s : string) : float64 * string :=
  if negb (HasPrefix s ".") then (q, s)
  else
    let '(n, d, rest) := qualityDigits (string_drop 1 s) 0 1 in
    (Float64.add q (Float64.div (Float64.of_int n) (Float64.of_int d)),
     rest).

Definition expectQuality (s : string) : float64 * string :=
  match s with
  | EmptyString => (Float64.minus_one, EmptyString)
  | String b s1 =>
      if Ascii.eqb b "0" then expectFraction Float64.zero s1
      else if Ascii.eqb b "1" then expectFraction Float64.one s1
      else (Float64.minus_one, EmptyString)
  end.

(** acceptSpec describes an Accept* header. *)
Record acceptSpec : Type := { Value : string; Q : float64 }.

(** The inner [for] of [parseAccept] on one header value [s], appending
    to [specs].  Every iteration that comes back to the head of the loop
    has consumed a non-empty token, so [S (String.length s)] iterations
    suffice; [fuel] counts them. *)
Fixpoint parseEntries (fuel : nat) (s : string) (specs : list acceptSpec)
  : list acceptSpec :=
  match fuel with
  | O => specs
  | S fuel' =>
      let '(value, s) := expectTokenSlash s in
      if String.eqb value "" then specs (* continue loop *)
      else
        let append (q : float64) (s : string) :=
          let specs := specs ++ [{| Value := value; Q := q |}] in
          let s := skipSpace s in
          if negb (HasPrefix s ",") then specs (* continue loop *)
          else parseEntries fuel' (skipSpace (string_drop 1 s)) specs in
        let s := skipSpace s in
        if HasPrefix s ";" then
          let s := skipSpace (string_drop 1 s) in
          if negb (HasPrefix s "q=") then specs (* continue loop *)
          else
            let '(q, s) := expectQuality (string_drop 2 s) in
            if Float64.ltb q Float64.zero then specs (* continue loop *)
            else append q s
        else append Float64.one s
  end.

Definition parseValue (s : string) (specs : list acceptSpec)
  : list acceptSpec :=
  parseEntries (S (String.length s)) s specs.

(** parseAccept parses Accept* headers. *)
Definition parseAccept (inp : list string) : list acceptSpec :=
  fold_left (fun specs s => parseValue s specs) inp [].

Definition specMatches (spec : acceptSpec) (offer : string) : bool :=
  String.eqb (Value spec) "*" || String.eqb (Value spec) offer.

(** The body of the two nested [range] loops of [negotiateAcceptHeader],
    on the pair (bestQ, bestOffer). *)
Definition negotiateStep (offer : string) (st : float64 * string)
  (spec : acceptSpec) : float64 * string :=
  if Float64.gtb (Q spec) (fst st) && specMatches spec offer
  then (Q spec, offer)
  else st.

Definition negotiateLoop (specs : list acceptSpec) (offers : list string)
  (st : float64 * string) : float64 * string :=
  fold_left (fun st offer => fold_left (negotiateStep offer) specs st)
    offers st.

Definition negotiateAcceptHeader (inp : list string) (offers : list string)
  (bestOffer : string) : string :=
  let bestOffer := if String.eqb bestOffer "" then IDENTITY else bestOffer in
  let bestQ := Float64.minus_one in
  let specs := parseAccept inp in
  let '(bestQ, bestOffer) := negotiateLoop specs offers (bestQ, bestOffer) in
  if Float64.eqb bestQ Float64.zero then EmptyString else bestOffer.

(* ===================================================================== *)
(** ** compress.go: identifiers, errors and header keys *)

Definition GZIP : string := "gzip".
Definition DEFLATE : string := "deflate".
Definition BROTLI : string := "br".
Definition SNAPPY : string := "snappy".
Definition S2 : string := "s2".

Inductive error : Type :=
  | ErrResponseNotCompressed
  | ErrRequestNotCompressed
  | ErrNotSupportedCompression
  | ErrWrap (err : error) (msg : string) (* fmt.Errorf with the verb %w *)
  | ErrCodec (msg : string).             (* an error value of a codec library *)

Definition AcceptEncodingHeaderKey : string := "Accept-Encoding".
Definition VaryHeaderKey : string := "Vary".
Definition ContentEncodingHeaderKey : string := "Content-Encoding".
Definition ContentLengthHeaderKey : string := "Content-Length".
Definition ContentTypeHeaderKey : string := "Content-Type".
Definition StatusOK : Z := 200.

(** [http.Header] is a Go map from canonical keys to value lists.  The
    five keys above are in canonical form already, so [Set], [Values] and
    [Del], which canonicalise their key, act on the map at the key as
    written. *)
Abbreviation Header := (gmap string (list string)).

Definition Header_Set (h : Header) (key value : string) : Header :=
  <[key := [value]]> h.
Definition Header_Values (h : Header) (key : string) : list string :=
  default [] (h !! key).
Definition Header_Del (h : Header) (key : string) : Header :=
  delete key h.

(* ===================================================================== *)
(** ** compress.go: the codec registry *)

(** The compressing streams are values of the codec libraries; the model
    keeps which constructor built the stream and with which level. *)
Inductive Writer : Type :=
  | GzipWriter (level : Z)
  | FlateWriter (level : Z)
  | BrotliWriter (level : Z)
  | SnappyWriter
  | S2Writer.

(** An [io.Reader] handed to [NewReader]: [srcCloser] tells whether its
    dynamic type also has a [Close] method. *)
Record Source : Type := { srcId : nat; srcCloser : bool }.

#[global] Instance Source_eq_dec : EqDecision Source.
Proof. solve_decision. Defined.

Inductive ioReader : Type :=
  | SourceReader (src : Source)
  | BrotliReader (src : Source)
  | SnappyReader (src : Source)
  | S2Reader (src : Source).

Inductive ioReadCloser : Type :=
  | SourceReadCloser (src : Source)
  | GzipReader (src : Source)
  | FlateReader (src : Source)
  | noOpReadCloser (r : ioReader).

(** Calls that the package issues on the response sink and on the
    compressing stream, oldest first. *)
Inductive call : Type :=
  | SinkWriteHeader (statusCode : Z)
  | SinkFlush
  | StreamWrite (p : list Byte.byte)
  | StreamFlush
  | StreamClose.

(** What the libraries outside the repository answer: the constructors
    of the gzip and flate streams may refuse a level or a source, the
    compressing stream reports the outcome of [Write] and [Flush] (they
    may depend on the calls made so far), and net/http sniffs the
    content type. *)
Class Externals : Type := {
  gzip_NewWriterLevel : Z -> option error;
  flate_NewWriter : Z -> option error;
  gzip_NewReader : Source -> option error;
  stream_Write : Writer -> list call -> list Byte.byte -> Z * option error;
  stream_Flush : Writer -> list call -> option error;
  DetectContentType : list Byte.byte -> string
}.

(** NewWriter returns a Writer based on the given encoding. *)
Definition NewWriter `{Externals} (encoding : string) (level : Z)
  : Writer + error :=
  if String.eqb encoding GZIP then
    match gzip_NewWriterLevel level with
    | Some err => inr err
    | None => inl (GzipWriter level)
    end
  else if String.eqb encoding DEFLATE then
    match flate_NewWriter level with
    | Some err => inr err
    | None => inl (FlateWriter level)
    end
  else if String.eqb encoding BROTLI then
    let level := if level =? -1 then 6 else level in
    inl (BrotliWriter level)
  else if String.eqb encoding SNAPPY then inl SnappyWriter
  else if String.eqb encoding S2 then inl S2Writer
  else inr ErrNotSupportedCompression.

(** Reader is a structure which wraps a compressed reader: the embedded
    [io.ReadCloser], the original source and the encoding. *)
Record Reader : Type := {
  rdReadCloser : ioReadCloser;
  rdSrc : ioReadCloser;
  rdEncoding : string
}.

(** NewReader; [src = None] is the nil interface. *)
Definition NewReader `{Externals} (src : option Source) (encoding : string)
  : Reader + error :=
  match src with
  | None => inr ErrRequestNotCompressed
  | Some src =>
      if String.eqb encoding "" then inr ErrRequestNotCompressed
      else
        let rc_err : ioReadCloser + error :=
          if String.eqb encoding GZIP then
            match gzip_NewReader src with
            | Some err => inr err
            | None => inl (GzipReader src)
            end
          else if String.eqb encoding DEFLATE then inl (FlateReader src)
          else if String.eqb encoding BROTLI
          then inl (noOpReadCloser (BrotliReader src))
          else if String.eqb encoding SNAPPY
          then inl (noOpReadCloser (SnappyReader src))
          else if String.eqb encoding S2
          then inl (noOpReadCloser (S2Reader src))
          else inr ErrNotSupportedCompression in
        match rc_err with
        | inr err => inr err
        | inl rc =>
            let srcReadCloser :=
              if srcCloser src then SourceReadCloser src
              else noOpReadCloser (SourceReader src) in
            inl {| rdReadCloser := rc;
                   rdSrc := srcReadCloser;
                   rdEncoding := encoding |}
        end
  end.

(** Calls of [Close] that reach an object outside the package. *)
Inductive closeCall : Type :=
  | CloseSource (src : Source)
  | CloseGzip (src : Source)
  | CloseFlate (src : Source).

#[global] Instance closeCall_eq_dec : EqDecision closeCall.
Proof. solve_decision. Defined.

(** [Close] of each [io.ReadCloser]; the one of [noOpReadCloser] returns
    nil and calls nothing. *)
Definition ioReadCloser_Close (rc : ioReadCloser) (log : list closeCall)
  : list closeCall :=
  match rc with
  | SourceReadCloser src => log ++ [CloseSource src]
  | GzipReader src => log ++ [CloseGzip src]
  | FlateReader src => log ++ [CloseFlate src]
  | noOpReadCloser _ => log
  end.

(** [Reader] declares no [Close] of its own: the method is promoted from
    the embedded [io.ReadCloser]. *)
Definition Reader_Close (r : Reader) (log : list closeCall)
  : list closeCall :=
  ioReadCloser_Close (rdReadCloser r) log.

Definition closesOfSource (src : Source) (log : list closeCall) : nat :=
  length (filter (fun c => c = CloseSource src) log).

(* ===================================================================== *)
(** ** compress.go: the compressing response writer *)

(** The wrapped [http.ResponseWriter]: its header map and the optional
    interfaces its dynamic type implements. *)
Record Sink : Type := {
  sinkHeader : Header;
  sinkPusher : bool;
  sinkCloseNotifier : bool;
  sinkHijacker : bool;
  sinkFlusher : bool
}.

Definition Sink_setHeader (w : Sink) (h : Header) : Sink :=
  {| sinkHeader := h;
     sinkPusher := sinkPusher w;
     sinkCloseNotifier := sinkCloseNotifier w;
     sinkHijacker := sinkHijacker w;
     sinkFlusher := sinkFlusher w |}.

Record Request : Type := { reqHeader : Header; reqBody : option Source }.

(** AddCompressHeaders just adds the headers Vary to Accept-Encoding and
    Content-Encoding to the given encoding. *)
Definition AddCompressHeaders (h : Header) (encoding : string) : Header :=
  let h := Header_Set h VaryHeaderKey AcceptEncodingHeaderKey in
  Header_Set h ContentEncodingHeaderKey encoding.

(** ResponseWriter; [rwCalls] is the history of the calls it has issued
    on the sink and on the compressing stream. *)
Record ResponseWriter : Type := {
  rwWriter : Writer;
  rwResponseWriter : Sink;
  rwPusher : bool;
  rwCloseNotifier : bool;
  rwHijacker : bool;
  rwEncoding : string;
  rwLevel : Z;
  rwAutoFlush : bool;
  rwWroteHeader : bool;
  rwCalls : list call
}.

Definition NewResponseWriter `{Externals} (w : Sink) (r : Request)
  (level : Z) : ResponseWriter + error :=
  let acceptEncoding := Header_Values (reqHeader r) AcceptEncodingHeaderKey in
  if (length acceptEncoding =? 0)%nat then inr ErrResponseNotCompressed
  else
    let encoding :=
      negotiateAcceptHeader acceptEncoding
        [GZIP; DEFLATE; BROTLI; SNAPPY; S2] IDENTITY in
    if String.eqb encoding "" then
      inr (ErrWrap ErrNotSupportedCompression encoding)
    else
      let level :=
        if (level =? -1) && String.eqb encoding BROTLI then 6 else level in
      match NewWriter encoding level with
      | inr err => inr err
      | inl cr =>
          let w := Sink_setHeader w (AddCompressHeaders (sinkHeader w) encoding) in
          inl {| rwWriter := cr;
                 rwResponseWriter := w;
                 rwPusher := sinkPusher w;
                 rwCloseNotifier := sinkCloseNotifier w;
                 rwHijacker := sinkHijacker w;
                 rwEncoding := encoding;
                 rwLevel := level;
                 rwAutoFlush := true;
                 rwWroteHeader := false;
                 rwCalls := [] |}
      end.

Definition rw_update (w : ResponseWriter) (h : Header) (wrote : bool)
  (calls : list call) : ResponseWriter :=
  {| rwWriter := rwWriter w;
     rwResponseWriter := Sink_setHeader (rwResponseWriter w) h;
     rwPusher := rwPusher w;
     rwCloseNotifier := rwCloseNotifier w;
     rwHijacker := rwHijacker w;
     rwEncoding := rwEncoding w;
     rwLevel := rwLevel w;
     rwAutoFlush := rwAutoFlush w;
     rwWroteHeader := wrote;
     rwCalls := calls |}.

Definition rwHeader (w : ResponseWriter) : Header :=
  sinkHeader (rwResponseWriter w).

(** WriteHeader sends an HTTP response header with the provided status
    code.  Deletes the Content-Length response header and calls the
    ResponseWriter's WriteHeader method. *)
Definition ResponseWriter_WriteHeader (w : ResponseWriter) (statusCode : Z)
  : ResponseWriter :=
  if negb (rwWroteHeader w) then
    rw_update w (delete ContentLengthHeaderKey (rwHeader w)) true
      (rwCalls w ++ [SinkWriteHeader statusCode])
  else w.

Definition ResponseWriter_Write `{Externals} (w : ResponseWriter)
  (p : list Byte.byte) : ResponseWriter * (Z * option error) :=
  let h := rwHeader w in
  let w :=
    match h !! ContentTypeHeaderKey with
    | None =>
        rw_update w (<[ContentTypeHeaderKey := [DetectContentType p]]> h)
          (rwWroteHeader w) (rwCalls w)
    | Some _ => w
    end in
  let w :=
    if negb (rwWroteHeader w) then ResponseWriter_WriteHeader w StatusOK
    else w in
  let '(n, err) := stream_Write (rwWriter w) (rwCalls w) p in
  let w := rw_update w (rwHeader w) (rwWroteHeader w)
             (rwCalls w ++ [StreamWrite p]) in
  match err with
  | Some e => (w, (0, Some e))
  | None =>
      if rwAutoFlush w then
        let err := stream_Flush (rwWriter w) (rwCalls w) in
        (rw_update w (rwHeader w) (rwWroteHeader w)
           (rwCalls w ++ [StreamFlush]), (n, err))
      else (w, (n, None))
  end.

(** Flush sends any buffered data to the client. *)
Definition ResponseWriter_Flush (w : ResponseWriter) : ResponseWriter :=
  let calls := rwCalls w ++ [StreamFlush] in
  let calls :=
    if sinkFlusher (rwResponseWriter w) then calls ++ [SinkFlush]
    else calls in
  rw_update w (rwHeader w) (rwWroteHeader w) calls.

(** [Close] is promoted from the embedded compress [Writer]. *)
Definition ResponseWriter_Close (w : ResponseWriter) : ResponseWriter :=
  rw_update w (rwHeader w) (rwWroteHeader w) (rwCalls w ++ [StreamClose]).

(* ===================================================================== *)
(** ** handler.go: the write middleware *)

(** An [http.Handler] is run against the dynamic type of the writer it
    receives: the plain sink or a [*ResponseWriter].  [ServeHTTP] may
    change the writer and the request it is given. *)
Record Handler : Type := {
  ServeRaw : Sink -> Request -> Sink * Request;
  ServeCompressed : ResponseWriter -> Request -> ResponseWriter * Request
}.

Inductive served : Type :=
  | ServedRaw (w : Sink) (r : Request)
  | ServedCompressed (cr : ResponseWriter) (r : Request).

Definition Request_delHeader (r : Request) (key : string) : Request :=
  {| reqHeader := Header_Del (reqHeader r) key; reqBody := reqBody r |}.

(** WriteHandler is the write using compression middleware. *)
Definition WriteHandler `{Externals} (next : Handler) (w : Sink)
  (r : Request) : served :=
  match NewResponseWriter w r (-1) with
  | inr _ =>
      let '(w, r) := ServeRaw next w r in
      ServedRaw w r
  | inl cr =>
      let r := Request_delHeader r AcceptEncodingHeaderKey in
      let '(cr, r) := ServeCompressed next cr r in
      (* defer cr.Close() *)
      ServedCompressed (ResponseWriter_Close cr) r
  end.

(* ===================================================================== *)
(** ** Handlers as sequences of calls, and libraries to run examples *)

(** What a handler can do with the [*ResponseWriter] it is given. *)
Inductive op : Type :=
  | OpWriteHeader (statusCode : Z)
  | OpWrite (p : list Byte.byte)
  | OpFlush
  | OpClose
  | OpHeaderSet (key value : string)
  | OpHeaderDel (key : string).

Definition runOp `{Externals} (w : ResponseWriter) (o : op)
  : ResponseWriter :=
  match o with
  | OpWriteHeader statusCode => ResponseWriter_WriteHeader w statusCode
  | OpWrite p => fst (ResponseWriter_Write w p)
  | OpFlush => ResponseWriter_Flush w
  | OpClose => ResponseWriter_Close w
  | OpHeaderSet key value =>
      rw_update w (Header_Set (rwHeader w) key value) (rwWroteHeader w)
        (rwCalls w)
  | OpHeaderDel key =>
      rw_update w (Header_Del (rwHeader w) key) (rwWroteHeader w)
        (rwCalls w)
  end.

Definition runOps `{Externals} (w : ResponseWriter) (ops : list op)
  : ResponseWriter :=
  fold_left runOp ops w.

(** Successive calls of [Write], one per chunk. *)
Definition writeAll `{Externals} (w : ResponseWriter)
  (ps : list (list Byte.byte)) : ResponseWriter :=
  fold_left (fun w p => fst (ResponseWriter_Write w p)) ps w.

Definition sinkWriteHeaders (calls : list call) : list Z :=
  omap (fun c => match c with SinkWriteHeader code => Some code | _ => None end)
    calls.

(** Libraries that accept every level and every source, and a stream
    that takes every chunk whole. *)
Definition acceptingLibraries : Externals :=
  {| gzip_NewWriterLevel := fun _ => None;
     flate_NewWriter := fun _ => None;
     gzip_NewReader := fun _ => None;
     stream_Write := fun _ _ p => (Z.of_nat (length p), None);
     stream_Flush := fun _ _ => None;
     DetectContentType := fun _ => "application/octet-stream" |}.

(** A sink on which the handler has set Content-Length, a request that
    accepts br only, and a source with a native [Close]. *)
Definition exampleSink : Sink :=
  {| sinkHeader := {[ ContentLengthHeaderKey := ["42"] ]};
     sinkPusher := false;
     sinkCloseNotifier := false;
     sinkHijacker := false;
     sinkFlusher := true |}.
Definition exampleRequest : Request :=
  {| reqHeader := {[ AcceptEncodingHeaderKey := ["br"] ]};
     reqBody := None |}.
Definition exampleSource : Source := {| srcId := 0; srcCloser := true |}.

(** The writer that NewResponseWriter builds on the example. *)
Definition exampleWriter : ResponseWriter :=
  {| rwWriter := BrotliWriter 6;
     rwResponseWriter :=
       Sink_setHeader exampleSink
         (AddCompressHeaders (sinkHeader exampleSink) BROTLI);
     rwPusher := false;
     rwCloseNotifier := false;
     rwHijacker := false;
     rwEncoding := BROTLI;
     rwLevel := 6;
     rwAutoFlush := true;
     rwWroteHeader := false;
     rwCalls := [] |}.

(** A handler that returns at once, and a request without headers. *)
Definition idleHandler : Handler :=
  {| ServeRaw := fun w r => (w, r);
     ServeCompressed := fun cr r => (cr, r) |}.
Definition bareRequest : Request := {| reqHeader := ∅; reqBody := None |}.

(* ===================================================================== *)
(** ** Vocabulary of the statements on header syntax *)

Fixpoint string_forall (P : ascii -> bool) (s : string) : bool :=
  match s with
  | EmptyString => true
  | String b s' => P b && string_forall P s'
  end.

Definition startsWith (P : ascii -> bool) (s : string) : bool :=
  match s with
  | EmptyString => false
  | String b _ => P b
  end.

(** The bytes on which the loops of [expectTokenSlash], [skipSpace] and
    [expectQuality] go on. *)
Definition tokenByte (b : ascii) : bool :=
  negb ((Z.land (octetTypes (byte_val b)) isToken =? 0)
        && negb (Ascii.eqb b slash)).
Definition spaceByte (b : ascii) : bool :=
  negb (Z.land (octetTypes (byte_val b)) isSpace =? 0).
Definition digitByte (b : ascii) : bool :=
  negb ((byte_val b <? byte_val "0") || (byte_val b >? byte_val "9")).

(** A non-empty token, a run of skippable white space, and the text of a
    quality value: 0 or 1, then possibly a dot and digits. *)
Definition tokenString (s : string) : Prop :=
  string_forall tokenByte s = true /\ s <> EmptyString.
Definition spaceString (s : string) : Prop :=
  string_forall spaceByte s = true.
Definition qualityText (s : string) : bool :=
  match s with
  | String b r =>
      (Ascii.eqb b "0" || Ascii.eqb b "1")
      && match r with
         | EmptyString => true
         | String c ds => Ascii.eqb c "." && string_forall digitByte ds
         end
  | EmptyString => false
  end.
Definition qualityOf (s : string) : float64 := fst (expectQuality s).

(** The text after the semicolon of an entry is a malformed parameter
    when it does not start, white space apart, with q= or when what
    follows q= is read as a negative quality. *)
Definition malformedParam (junk : string) : Prop :=
  let p := skipSpace junk in
  HasPrefix p "q=" = false
  \/ Float64.ltb (fst (expectQuality (string_drop 2 p))) Float64.zero = true.

(** The text of one well-formed entry, without the comma that ends it,
    and the preference entry it stands for. *)
Inductive entry_text : string -> acceptSpec -> Prop :=
  | entry_plain tok sp :
      tokenString tok -> spaceString sp ->
      entry_text (tok +:+ sp) {| Value := tok; Q := Float64.one |}
  | entry_quality tok sp1 sp2 qt sp3 :
      tokenString tok -> spaceString sp1 -> spaceString sp2 ->
      spaceString sp3 -> qualityText qt = true ->
      Float64.ltb (qualityOf qt) Float64.zero = false ->
      entry_text (tok +:+ sp1 +:+ ";" +:+ sp2 +:+ "q=" +:+ qt +:+ sp3)
        {| Value := tok; Q := qualityOf qt |}.

(** A run of well-formed entries, each ended by a comma and white space. *)
Inductive entries_text : string -> list acceptSpec -> Prop :=
  | entries_nil : entries_text EmptyString []
  | entries_cons t e sp rest l :
      entry_text t e -> spaceString sp -> entries_text rest l ->
      entries_text (t +:+ "," +:+ sp +:+ rest) (e :: l).

(** One iteration of the inner loop of [parseAccept]: [None] when the
    loop is left before anything is appended, otherwise the appended
    entry and, when a comma follows, the text the loop goes on with. *)
Definition parseEntry (s : string) : option (acceptSpec * option string) :=
  let '(value, s) := expectTokenSlash s in
  if String.eqb value "" then None
  else
    let append (q : float64) (s : string) :=
      let s := skipSpace s in
      Some ({| Value := value; Q := q |},
            if negb (HasPrefix s ",") then None
            else Some (skipSpace (string_drop 1 s))) in
    let s := skipSpace s in
    if HasPrefix s ";" then
      let s := skipSpace (string_drop 1 s) in
      if negb (HasPrefix s "q=") then None
      else
        let '(q, s) := expectQuality (string_drop 2 s) in
        if Float64.ltb q Float64.zero then None else append q s
    else append Float64.one s.

(** A weight of the closed interval from 0.0 to 1.0. *)
Definition inUnitInterval (q : float64) : bool :=
  SFleb Float64.zero q && SFleb q Float64.one.

(* ===================================================================== *)
(** ** handler.go: the read middleware and the combined handler *)

(** [Header.Get]: the first value of the key, the empty string when the
    key has none. *)
Definition Header_Get (h : Header) (key : string) : string :=
  match Header_Values h key with
  | v :: _ => v
  | [] => EmptyString
  end.

(** What the Body field of a request holds once ReadHandler has run: the
    body it had, or the [*Reader] put in its place. *)
Inductive Body : Type :=
  | BodySource (src : option Source)
  | BodyReader (rc : Reader).

(** The assignment to [r.Body] made by ReadHandler: an error of NewReader
    leaves the body as it is. *)
Definition ReadHandler_body `{Externals} (r : Request) : Body :=
  let encoding := Header_Get (reqHeader r) ContentEncodingHeaderKey in
  if negb (String.eqb encoding "") then
    match NewReader (reqBody r) encoding with
    | inl rc => BodyReader rc
    | inr _ => BodySource (reqBody r)
    end
  else BodySource (reqBody r).

(** The deferred [rc.Close()] of ReadHandler. *)
Definition ReadHandler_deferred `{Externals} (r : Request)
  (log : list closeCall) : list closeCall :=
  match ReadHandler_body r with
  | BodyReader rc => Reader_Close rc log
  | BodySource _ => log
  end.

(** A handler behind ReadHandler is given the request and, apart, the
    Body that the request now carries. *)
Record BodyHandler : Type := {
  ServeRawBody : Sink -> Request -> Body -> Sink * Request;
  ServeCompressedBody :
    ResponseWriter -> Request -> Body -> ResponseWriter * Request
}.

(** ReadHandler is the decompress and read request body middleware. *)
Definition ReadHandler `{Externals} (next : BodyHandler) : Handler :=
  {| ServeRaw := fun w r => ServeRawBody next w r (ReadHandler_body r);
     ServeCompressed :=
       fun cr r => ServeCompressedBody next cr r (ReadHandler_body r) |}.

(** The function [Handler] of handler.go: WriteHandler around
    ReadHandler. *)
Definition CompressHandler `{Externals} (next : BodyHandler) (w : Sink)
  (r : Request) : served :=
  WriteHandler (ReadHandler next) w r.

(** A handler given by the calls it makes on a [*ResponseWriter]; on the
    plain sink it is left abstract. *)
Definition scriptHandler `{Externals} (ops : list op)
  (raw : Sink -> Request -> Sink * Request) : Handler :=
  {| ServeRaw := raw;
     ServeCompressed := fun cr r => (runOps cr ops, r) |}.

(** The codec that the registry builds for a supported identifier. *)
Definition codecOf (encoding : string) (level : Z) : Writer :=
  if String.eqb encoding GZIP then GzipWriter level
  else if String.eqb encoding DEFLATE then FlateWriter level
  else if String.eqb encoding BROTLI then BrotliWriter level
  else if String.eqb encoding SNAPPY then SnappyWriter
  else S2Writer.

(** The exact value, in thousandths, of a quality text of at most three
    fraction digits: the digits are read as a decimal number, without any
    machine arithmetic. *)
Fixpoint decimalOf (ds : string) (acc : Z) : Z :=
  match ds with
  | EmptyString => acc
  | String b ds' => decimalOf ds' (acc * 10 + (byte_val b - byte_val "0"))
  end.

Definition thousandths (qt : string) : Z :=
  match qt with
  | EmptyString => 0
  | String b r =>
      (byte_val b - byte_val "0") * 1000
      + match r with
        | EmptyString => 0
        | String _ ds =>
            decimalOf ds 0 * 10 ^ (3 - Z.of_nat (String.length ds))
        end
  end.

(** A compressing stream that takes two bytes and then fails, one whose
    flush fails, and a gzip library that finds no gzip header. *)
Definition refusingStream : Externals :=
  {| gzip_NewWriterLevel := fun _ => None;
     flate_NewWriter := fun _ => None;
     gzip_NewReader := fun _ => None;
     stream_Write := fun _ _ _ => (2, Some (ErrCodec "closed"));
     stream_Flush := fun _ _ => None;
     DetectContentType := fun _ => "application/octet-stream" |}.
Definition failingFlush : Externals :=
  {| gzip_NewWriterLevel := fun _ => None;
     flate_NewWriter := fun _ => None;
     gzip_NewReader := fun _ => None;
     stream_Write := fun _ _ p => (Z.of_nat (length p), None);
     stream_Flush := fun _ _ => Some (ErrCodec "flush");
     DetectContentType := fun _ => "application/octet-stream" |}.
Definition noGzipHeader : Externals :=
  {| gzip_NewWriterLevel := fun _ => None;
     flate_NewWriter := fun _ => None;
     gzip_NewReader := fun _ => Some (ErrCodec "gzip: invalid header");
     stream_Write := fun _ _ p => (Z.of_nat (length p), None);
     stream_Flush := fun _ _ => None;
     DetectContentType := fun _ => "application/octet-stream" |}.

(* ===================================================================== *)
(** * Properties *)

(** ** The order of float64 as Go's comparisons see it *)

Module Float64Facts.
Import Float64.

Ltac unfold_cmp :=
  unfold gtb, ltb, eqb, is_nan, SFltb, SFeqb, SFcompare in *.

Ltac split_signs :=
  repeat match goal with
         | x : float64 |- _ => destruct x
         | x : spec_float |- _ => destruct x
         | b : bool |- _ => destruct b
         end.

Ltac split_compare :=
  change (Pos.compare_cont Eq) with Pos.compare in *;
  repeat match goal with
         | H : context [Z.compare ?a ?b] |- _ =>
             destruct (Z.compare_spec a b); simpl in H; try discriminate H
         | |- context [Z.compare ?a ?b] =>
             destruct (Z.compare_spec a b); simpl
         | H : context [Pos.compare ?a ?b] |- _ =>
             destruct (Pos.compare_spec a b); simpl in H; try discriminate H
         | |- context [Pos.compare ?a ?b] =>
             destruct (Pos.compare_spec a b); simpl
         end.

Ltac order := unfold_cmp; split_signs; simpl in *;
  try discriminate; try reflexivity; try tauto;
  split_compare; subst; try discriminate; try reflexivity; try tauto; try lia.

Lemma ltb_trans (a b c : float64) :
  ltb a b = true -> ltb b c = true -> ltb a c = true.
Proof. intros H1 H2. order. Qed.

Lemma ltb_number_l (a b : float64) : ltb a b = true -> is_nan a = false.
Proof. intros H. order. Qed.

Lemma ltb_number_r (a b : float64) : ltb a b = true -> is_nan b = false.
Proof. intros H. order. Qed.

Lemma ltb_asym (a b : float64) : ltb a b = true -> ltb b a = false.
Proof. intros H. order. Qed.

Lemma trichotomy (a b : float64) :
  is_nan a = false -> is_nan b = false ->
  ltb a b = true \/ eqb a b = true \/ ltb b a = true.
Proof. intros Ha Hb. order; auto. Qed.

Lemma eqb_ltb_r (a b c : float64) :
  eqb a b = true -> ltb c a = ltb c b.
Proof. intros H. order. Qed.

Lemma eqb_ltb_l (a b c : float64) :
  eqb a b = true -> ltb a c = ltb b c.
Proof. intros H. order. Qed.

Lemma eqb_eqb_l (a b c : float64) :
  eqb a b = true -> eqb a c = eqb b c.
Proof. intros H. order. Qed.

Lemma eqb_sym (a b : float64) : eqb a b = eqb b a.
Proof. order. Qed.

Lemma eqb_not_ltb (a b : float64) : eqb a b = true -> ltb a b = false.
Proof. intros H. order. Qed.

Lemma eqb_number (a b : float64) : eqb a b = true -> is_nan a = false.
Proof. intros H. order. Qed.

Lemma eqb_refl (a : float64) : is_nan a = false -> eqb a a = true.
Proof. intros H. order. Qed.

Lemma minus_one_lt_zero : ltb minus_one zero = true.
Proof. reflexivity. Qed.

(** A number that is not below zero is above -1. *)
Lemma minus_one_lt (a : float64) :
  is_nan a = false -> ltb a zero = false -> ltb minus_one a = true.
Proof.
  intros Hnan Hneg.
  destruct (trichotomy a zero Hnan eq_refl) as [H|[H|H]].
  - congruence.
  - by rewrite (eqb_ltb_r a zero minus_one H).
  - exact (ltb_trans minus_one zero a minus_one_lt_zero H).
Qed.

(** Not above, not equal, and a number: below. *)
Lemma below_of_not_above (a b : float64) :
  is_nan a = false -> is_nan b = false ->
  gtb a b = false -> eqb a b = false -> ltb a b = true.
Proof.
  intros Ha Hb Hgt Heq. change (ltb b a = false) in Hgt.
  destruct (trichotomy a b Ha Hb) as [H|[H|H]]; [done|congruence..].
Qed.
End Float64Facts.

(** ** The selection loop of negotiateAcceptHeader *)

Section Selection.
Import Float64 Float64Facts.
Variable specs : list acceptSpec.

Definition below (q : float64) (e : acceptSpec) : Prop :=
  ltb (Q e) q = true \/ is_nan (Q e) = true.

Lemma negotiateStep_below offer st e q :
  ltb (fst st) q = true ->
  (specMatches e offer = true -> below q e) ->
  ltb (fst (negotiateStep offer st e)) q = true.
Proof.
  intros Hst He. unfold negotiateStep.
  destruct (gtb (Q e) (fst st)) eqn:Hgt; simpl; [|done].
  destruct (specMatches e offer); simpl; [|done].
  destruct He as [He|He]; [done|done|].
  apply ltb_number_r in Hgt. congruence.
Qed.

Lemma scan_below l offer st q :
  ltb (fst st) q = true ->
  (forall e, e ∈ l -> specMatches e offer = true -> below q e) ->
  ltb (fst (fold_left (negotiateStep offer) l st)) q = true.
Proof.
  revert st. induction l as [|e l IH]; intros st Hst Hl; simpl; [done|].
  apply IH.
  - apply negotiateStep_below; [done|]. apply Hl. left.
  - intros e' He'. apply Hl. by right.
Qed.

Lemma scan_keep l offer st :
  (forall e, e ∈ l -> specMatches e offer = true ->
             gtb (Q e) (fst st) = false) ->
  fold_left (negotiateStep offer) l st = st.
Proof.
  induction l as [|e l IH]; intros Hl; simpl; [done|].
  assert (negotiateStep offer st e = st) as ->.
  { unfold negotiateStep.
    destruct (specMatches e offer) eqn:Hm.
    - rewrite (Hl e) by (done || left). done.
    - by rewrite andb_false_r. }
  apply IH. intros e' He'. apply Hl. by right.
Qed.

Lemma negotiateLoop_below offers st q :
  ltb (fst st) q = true ->
  (forall o e, o ∈ offers -> e ∈ specs -> specMatches e o = true ->
               below q e) ->
  ltb (fst (negotiateLoop specs offers st)) q = true.
Proof.
  unfold negotiateLoop. revert st.
  induction offers as [|o offers IH]; intros st Hst Hl; simpl; [done|].
  apply IH.
  - apply scan_below; [done|]. intros e He. apply Hl; [left|done].
  - intros o' e Ho'. apply Hl. by right.
Qed.

Lemma negotiateLoop_keep offers st :
  (forall o e, o ∈ offers -> e ∈ specs -> specMatches e o = true ->
               gtb (Q e) (fst st) = false) ->
  negotiateLoop specs offers st = st.
Proof.
  unfold negotiateLoop.
  induction offers as [|o offers IH]; intros Hl; simpl; [done|].
  rewrite scan_keep.
  - apply IH. intros o' e Ho'. apply Hl. by right.
  - intros e He. apply Hl; [left|done].
Qed.

(** The loop stops on the first pair, in the order offers then
    entries, that no later pair beats and that beats all earlier ones. *)
Lemma negotiateLoop_first_best offs1 o offs2 sp1 e sp2 st :
  specs = sp1 ++ e :: sp2 ->
  specMatches e o = true ->
  ltb (fst st) (Q e) = true ->
  (forall o' e', o' ∈ offs1 -> e' ∈ specs -> specMatches e' o' = true ->
                 below (Q e) e') ->
  (forall e', e' ∈ sp1 -> specMatches e' o = true -> below (Q e) e') ->
  (forall e', e' ∈ sp2 -> specMatches e' o = true ->
              gtb (Q e') (Q e) = false) ->
  (forall o' e', o' ∈ offs2 -> e' ∈ specs -> specMatches e' o' = true ->
                 gtb (Q e') (Q e) = false) ->
  negotiateLoop specs (offs1 ++ o :: offs2) st = (Q e, o).
Proof.
  intros Hspecs Hm Hst H1 Hsp1 Hsp2 H2.
  pose proof (negotiateLoop_below offs1 st (Q e) Hst H1) as Hst1.
  unfold negotiateLoop in *. rewrite fold_left_app. simpl.
  set (st1 := fold_left _ offs1 st) in *.
  assert (fold_left (negotiateStep o) specs st1 = (Q e, o)) as ->.
  { rewrite Hspecs, fold_left_app. simpl.
    pose proof (scan_below sp1 o st1 (Q e) Hst1 Hsp1) as Hst2.
    set (st2 := fold_left _ sp1 st1) in *.
    assert (negotiateStep o st2 e = (Q e, o)) as ->.
    { unfold negotiateStep.
      change (gtb (Q e) (fst st2)) with (ltb (fst st2) (Q e)).
      by rewrite Hst2, Hm. }
    by apply scan_keep. }
  by apply (negotiateLoop_keep offs2 (Q e, o)).
Qed.
End Selection.

(** ** Byte strings and the scanners *)

Lemma append_cons x (a b : string) : String x a +:+ b = String x (a +:+ b).
Proof. reflexivity. Qed.

Lemma append_nil_l (a : string) : EmptyString +:+ a = a.
Proof. reflexivity. Qed.

Ltac app_simpl := rewrite ?append_cons, ?append_nil_l in *; simpl in *.

Lemma append_assoc (a b c : string) : (a +:+ b) +:+ c = a +:+ (b +:+ c).
Proof. induction a as [|x a IH]; app_simpl; [done|]. by rewrite IH. Qed.

Lemma append_nil_r (a : string) : a +:+ EmptyString = a.
Proof. induction a as [|x a IH]; app_simpl; [done|]. by rewrite IH. Qed.

Lemma length_append (a b : string) :
  String.length (a +:+ b) = (String.length a + String.length b)%nat.
Proof. induction a as [|x a IH]; app_simpl; [done|]. by rewrite IH. Qed.

Lemma length_string_drop n s :
  (String.length (string_drop n s) <= String.length s)%nat.
Proof.
  revert s. induction n as [|n IH]; intros [|b s];
    try (unfold string_drop; simpl; lia).
  change (string_drop (S n) (String b s)) with (string_drop n s).
  specialize (IH s). simpl. lia.
Qed.

Lemma string_drop_cons n b s :
  string_drop (S n) (String b s) = string_drop n s.
Proof. reflexivity. Qed.

Lemma string_drop_0 s : string_drop 0 s = s.
Proof. by destruct s. Qed.

Lemma length_skipSpace s :
  (String.length (skipSpace s) <= String.length s)%nat.
Proof.
  induction s as [|b s IH]; simpl; [lia|].
  destruct (_ =? 0); simpl; lia.
Qed.

Lemma expectTokenSlash_length s :
  String.length s
  = (String.length (fst (expectTokenSlash s))
     + String.length (snd (expectTokenSlash s)))%nat.
Proof.
  induction s as [|b s IH]; simpl; [done|].
  destruct (_ && _); simpl; [done|].
  destruct (expectTokenSlash s); simpl in *. lia.
Qed.

Lemma expectTokenSlash_app tok r :
  string_forall tokenByte tok = true -> startsWith tokenByte r = false ->
  expectTokenSlash (tok +:+ r) = (tok, r).
Proof.
  intros Htok Hr. induction tok as [|b tok IH]; app_simpl.
  - destruct r as [|c r]; simpl in *; [done|].
    unfold tokenByte in Hr. apply negb_false_iff in Hr. by rewrite Hr.
  - apply andb_true_iff in Htok as [Hb Htok].
    unfold tokenByte in Hb. apply negb_true_iff in Hb. rewrite Hb.
    by rewrite IH.
Qed.

Lemma skipSpace_app sp r :
  spaceString sp -> skipSpace (sp +:+ r) = skipSpace r.
Proof.
  unfold spaceString. induction sp as [|b sp IH]; app_simpl; [done|].
  intros [Hb Hsp]%andb_true_iff.
  unfold spaceByte in Hb. apply negb_true_iff in Hb. rewrite Hb. auto.
Qed.

Lemma skipSpace_id r : startsWith spaceByte r = false -> skipSpace r = r.
Proof.
  destruct r as [|b r]; simpl; [done|].
  unfold spaceByte. intros Hb%negb_false_iff. by rewrite Hb.
Qed.

Lemma startsWith_app_space (P : ascii -> bool) sp r :
  (forall b, spaceByte b = true -> P b = false) ->
  spaceString sp -> startsWith P r = false ->
  startsWith P (sp +:+ r) = false.
Proof.
  intros HP Hsp Hr. destruct sp as [|b sp]; app_simpl; [done|].
  apply HP. unfold spaceString in Hsp. simpl in Hsp.
  by apply andb_true_iff in Hsp as [? _].
Qed.

Lemma spaceByte_not_token b : spaceByte b = true -> tokenByte b = false.
Proof. destruct b as [[] [] [] [] [] [] [] []]; vm_compute; congruence. Qed.

Lemma spaceByte_not_digit b :
  spaceByte b = true -> digitByte b || Ascii.eqb b "." = false.
Proof. destruct b as [[] [] [] [] [] [] [] []]; vm_compute; congruence. Qed.

Lemma qualityDigits_length s n d :
  (String.length (snd (qualityDigits s n d)) <= String.length s)%nat.
Proof.
  revert n d. induction s as [|b s IH]; intros n d; simpl; [lia|].
  destruct (_ || _); simpl; [lia|]. specialize (IH
    (Int.sub (Int.add (Int.mul n 10) (byte_val b)) (byte_val "0"))
    (Int.mul d 10)). lia.
Qed.

Lemma expectFraction_length q s :
  (String.length (snd (expectFraction q s)) <= String.length s)%nat.
Proof.
  unfold expectFraction. destruct (negb _); simpl; [lia|].
  pose proof (qualityDigits_length (string_drop 1 s) 0 1) as H1.
  pose proof (length_string_drop 1 s) as H2.
  destruct (qualityDigits _ _ _) as [[n d] rest]. simpl in *. lia.
Qed.

Lemma expectQuality_length s :
  (String.length (snd (expectQuality s)) <= String.length s)%nat.
Proof.
  destruct s as [|b s]; unfold expectQuality; [simpl; lia|].
  pose proof (expectFraction_length Float64.zero s).
  pose proof (expectFraction_length Float64.one s).
  destruct (Ascii.eqb b "0"); [simpl; lia|].
  destruct (Ascii.eqb b "1"); simpl; lia.
Qed.

Lemma qualityDigits_app ds tail n d :
  string_forall digitByte ds = true -> startsWith digitByte tail = false ->
  qualityDigits (ds +:+ tail) n d
  = (fst (fst (qualityDigits ds n d)), snd (fst (qualityDigits ds n d)), tail).
Proof.
  intros Hds Htail. revert n d.
  induction ds as [|b ds IH]; intros n d; app_simpl.
  - destruct tail as [|c tail]; simpl in *; [done|].
    unfold digitByte in Htail. apply negb_false_iff in Htail.
    by rewrite Htail.
  - apply andb_true_iff in Hds as [Hb Hds].
    unfold digitByte in Hb. apply negb_true_iff in Hb. rewrite Hb. auto.
Qed.

Lemma qualityDigits_nil ds n d :
  string_forall digitByte ds = true ->
  snd (qualityDigits ds n d) = EmptyString.
Proof.
  intros Hds. revert n d. induction ds as [|b ds IH]; intros n d; simpl in *.
  - done.
  - apply andb_true_iff in Hds as [Hb Hds].
    unfold digitByte in Hb. apply negb_true_iff in Hb. rewrite Hb. auto.
Qed.

Lemma HasPrefix_byte s c :
  HasPrefix s (String c EmptyString) = startsWith (fun b => Ascii.eqb b c) s.
Proof. destruct s as [|b s]; simpl; [done|]. by rewrite andb_true_r. Qed.

Lemma expectFraction_app q r tail :
  match r with
  | EmptyString => true
  | String c ds => Ascii.eqb c "." && string_forall digitByte ds
  end = true ->
  startsWith (fun b => digitByte b || Ascii.eqb b ".") tail = false ->
  expectFraction q (r +:+ tail) = (fst (expectFraction q r), tail).
Proof.
  intros Hr Htail. unfold expectFraction. rewrite !HasPrefix_byte.
  assert (startsWith digitByte tail = false
          /\ startsWith (fun b => Ascii.eqb b ".") tail = false)
    as [Hdig Hdot].
  { destruct tail as [|c tail]; simpl in *; [done|].
    by apply orb_false_iff in Htail. }
  destruct r as [|c ds]; app_simpl.
  - by rewrite Hdot.
  - apply andb_true_iff in Hr as [Hc Hds]. rewrite Hc. simpl.
    rewrite !string_drop_cons, !string_drop_0.
    rewrite qualityDigits_app by done.
    by destruct (qualityDigits ds 0 1) as [[??]?].
Qed.

Lemma expectQuality_app qt tail :
  qualityText qt = true ->
  startsWith (fun b => digitByte b || Ascii.eqb b ".") tail = false ->
  expectQuality (qt +:+ tail) = (qualityOf qt, tail).
Proof.
  intros Hqt Htail. unfold qualityOf.
  destruct qt as [|b r]; simpl in Hqt; [done|].
  apply andb_true_iff in Hqt as [Hb Hr].
  rewrite append_cons. unfold expectQuality.
  destruct (Ascii.eqb b "0"); [by apply expectFraction_app|].
  destruct (Ascii.eqb b "1"); [by apply expectFraction_app|]. done.
Qed.

(** ** The parsing loop *)

Lemma parseEntries_S fuel s specs :
  parseEntries (S fuel) s specs
  = match parseEntry s with
    | None => specs
    | Some (spec, None) => specs ++ [spec]
    | Some (spec, Some rest) => parseEntries fuel rest (specs ++ [spec])
    end.
Proof.
  cbn [parseEntries]. unfold parseEntry.
  destruct (expectTokenSlash s) as [value s1].
  destruct (String.eqb value ""); [done|].
  destruct (HasPrefix (skipSpace s1) ";").
  - destruct (negb (HasPrefix _ "q=")); [done|].
    destruct (expectQuality _) as [q s2].
    destruct (Float64.ltb q Float64.zero); [done|].
    by destruct (negb (HasPrefix (skipSpace s2) ",")).
  - by destruct (negb (HasPrefix (skipSpace (skipSpace s1)) ",")).
Qed.

Lemma parseEntry_nonneg s spec r :
  parseEntry s = Some (spec, r) -> Float64.ltb (Q spec) Float64.zero = false.
Proof.
  unfold parseEntry.
  destruct (expectTokenSlash s) as [value s1].
  destruct (String.eqb value ""); [done|].
  destruct (HasPrefix (skipSpace s1) ";").
  - destruct (negb (HasPrefix _ "q=")); [done|].
    destruct (expectQuality _) as [q s2].
    destruct (Float64.ltb q Float64.zero) eqn:Hq; [done|].
    by intros [= <- _].
  - by intros [= <- _].
Qed.

Lemma parseEntry_shrinks s spec rest :
  parseEntry s = Some (spec, Some rest) ->
  (String.length rest < String.length s)%nat.
Proof.
  unfold parseEntry.
  pose proof (expectTokenSlash_length s) as Hlen.
  destruct (expectTokenSlash s) as [value s1]. simpl in Hlen.
  destruct (String.eqb_spec value "") as [|Hne]; [done|].
  assert (0 < String.length value)%nat as Hpos
    by (destruct value; [done|simpl; lia]).
  assert (forall s2, (String.length s2 <= String.length s1)%nat ->
    (if negb (HasPrefix (skipSpace s2) ",") then None
     else Some (skipSpace (string_drop 1 (skipSpace s2)))) = Some rest ->
    (String.length rest < String.length s)%nat) as Hfin.
  { intros s2 Hs2. destruct (negb _); [done|]. intros [= <-].
    pose proof (length_skipSpace (string_drop 1 (skipSpace s2))).
    pose proof (length_string_drop 1 (skipSpace s2)).
    pose proof (length_skipSpace s2). lia. }
  destruct (HasPrefix (skipSpace s1) ";").
  - destruct (negb (HasPrefix _ "q=")); [done|].
    pose proof (expectQuality_length
      (string_drop 2 (skipSpace (string_drop 1 (skipSpace s1))))) as Hq.
    destruct (expectQuality _) as [q s2]. simpl in Hq.
    destruct (Float64.ltb q Float64.zero); [done|].
    intros [= _ Hrest]. apply (Hfin s2); [|done].
    pose proof (length_string_drop 2
      (skipSpace (string_drop 1 (skipSpace s1)))).
    pose proof (length_skipSpace (string_drop 1 (skipSpace s1))).
    pose proof (length_string_drop 1 (skipSpace s1)).
    pose proof (length_skipSpace s1). lia.
  - intros [= _ Hrest]. apply (Hfin (skipSpace s1)); [|done].
    apply length_skipSpace.
Qed.

(** The fuel of [parseValue] is never exhausted: any two amounts above
    the length of the text give the same entries. *)
Lemma parseEntries_fuel f1 f2 s specs :
  (String.length s < f1)%nat -> (String.length s < f2)%nat ->
  parseEntries f1 s specs = parseEntries f2 s specs.
Proof.
  revert f2 s specs. induction f1 as [|f1 IH]; intros f2 s specs H1 H2; [lia|].
  destruct f2 as [|f2]; [lia|]. rewrite !parseEntries_S.
  destruct (parseEntry s) as [[spec [rest|]]|] eqn:He; [|done..].
  apply parseEntry_shrinks in He. apply IH; lia.
Qed.

Lemma parseValue_step s specs :
  parseValue s specs
  = match parseEntry s with
    | None => specs
    | Some (spec, None) => specs ++ [spec]
    | Some (spec, Some rest) => parseValue rest (specs ++ [spec])
    end.
Proof.
  unfold parseValue. rewrite parseEntries_S.
  destruct (parseEntry s) as [[spec [rest|]]|] eqn:He; [|done..].
  apply parseEntry_shrinks in He. apply parseEntries_fuel; lia.
Qed.

Lemma parseEntries_acc fuel s specs :
  parseEntries fuel s specs = specs ++ parseEntries fuel s [].
Proof.
  revert s specs. induction fuel as [|fuel IH]; intros s specs.
  - simpl. by rewrite app_nil_r.
  - rewrite !parseEntries_S.
    destruct (parseEntry s) as [[spec [rest|]]|]; simpl;
      [|done|by rewrite app_nil_r].
    rewrite IH, (IH rest [spec]). by rewrite app_assoc.
Qed.

Lemma parseValue_acc s specs : parseValue s specs = specs ++ parseValue s [].
Proof. apply parseEntries_acc. Qed.

Lemma parseAccept_acc inp specs :
  fold_left (fun specs s => parseValue s specs) inp specs
  = specs ++ parseAccept inp.
Proof.
  unfold parseAccept. revert specs.
  induction inp as [|s inp IH]; intros specs; simpl.
  - by rewrite app_nil_r.
  - rewrite IH, (IH (parseValue s [])), (parseValue_acc s specs).
    by rewrite app_assoc.
Qed.

Lemma parseAccept_cons s inp :
  parseAccept (s :: inp) = parseValue s [] ++ parseAccept inp.
Proof. unfold parseAccept at 1. simpl. apply parseAccept_acc. Qed.

Lemma parseAccept_app inp1 inp2 :
  parseAccept (inp1 ++ inp2) = parseAccept inp1 ++ parseAccept inp2.
Proof.
  induction inp1 as [|s inp1 IH]; [done|].
  rewrite <- app_comm_cons, !parseAccept_cons, IH. by rewrite app_assoc.
Qed.

Lemma parseEntries_nonneg fuel s specs :
  Forall (fun e => Float64.ltb (Q e) Float64.zero = false) specs ->
  Forall (fun e => Float64.ltb (Q e) Float64.zero = false)
    (parseEntries fuel s specs).
Proof.
  revert s specs. induction fuel as [|fuel IH]; intros s specs Hs; [done|].
  rewrite parseEntries_S.
  destruct (parseEntry s) as [[spec r]|] eqn:He; [|done].
  apply parseEntry_nonneg in He.
  assert (Forall (fun e => Float64.ltb (Q e) Float64.zero = false)
            (specs ++ [spec])) by (apply Forall_app; auto).
  destruct r; auto.
Qed.

Lemma parseAccept_Forall_nonneg inp specs :
  Forall (fun e => Float64.ltb (Q e) Float64.zero = false) specs ->
  Forall (fun e => Float64.ltb (Q e) Float64.zero = false)
    (fold_left (fun specs s => parseValue s specs) inp specs).
Proof.
  revert specs. induction inp as [|s inp IH]; intros specs Hs; simpl; [done|].
  apply IH. by apply parseEntries_nonneg.
Qed.

Lemma parseAccept_nonneg inp e :
  e ∈ parseAccept inp -> Float64.ltb (Q e) Float64.zero = false.
Proof.
  intros He.
  pose proof (parseAccept_Forall_nonneg inp [] (Forall_nil_2 _)) as H.
  rewrite Forall_forall in H. by apply H.
Qed.

(** ** The loop body on well-formed and on malformed entries *)

Lemma tokenString_eqb tok : tokenString tok -> String.eqb tok "" = false.
Proof. intros [_ Hne]. by apply String.eqb_neq. Qed.

Lemma startsWith_space_then (P : ascii -> bool) sp c r :
  (forall b, spaceByte b = true -> P b = false) ->
  spaceString sp -> P c = false ->
  startsWith P (sp +:+ String c r) = false.
Proof. intros HP Hsp Hc. by apply startsWith_app_space. Qed.

Lemma skipSpace_then sp c r :
  spaceString sp -> spaceByte c = false ->
  skipSpace (sp +:+ String c r) = String c r.
Proof. intros Hsp Hc. rewrite skipSpace_app by done. by apply skipSpace_id. Qed.

Lemma skipSpace_spaces sp : spaceString sp -> skipSpace sp = EmptyString.
Proof.
  intros Hsp. rewrite <- (append_nil_r sp). by rewrite skipSpace_app.
Qed.

(** What the iteration does once the token is read: [r] is the text
    after the token. *)
Definition afterToken (value r : string)
  : option (acceptSpec * option string) :=
  let append (q : float64) (s : string) :=
    let s := skipSpace s in
    Some ({| Value := value; Q := q |},
          if negb (HasPrefix s ",") then None
          else Some (skipSpace (string_drop 1 s))) in
  let s := skipSpace r in
  if HasPrefix s ";" then
    let s := skipSpace (string_drop 1 s) in
    if negb (HasPrefix s "q=") then None
    else
      let '(q, s) := expectQuality (string_drop 2 s) in
      if Float64.ltb q Float64.zero then None else append q s
  else append Float64.one s.

Lemma parseEntry_token tok r :
  tokenString tok -> startsWith tokenByte r = false ->
  parseEntry (tok +:+ r) = afterToken tok r.
Proof.
  intros Htok Hr. unfold parseEntry.
  rewrite expectTokenSlash_app by (done || apply Htok).
  by rewrite tokenString_eqb.
Qed.

Lemma afterToken_plain_comma tok sp rest :
  spaceString sp ->
  afterToken tok (sp +:+ "," +:+ rest)
  = Some ({| Value := tok; Q := Float64.one |}, Some (skipSpace rest)).
Proof.
  intros Hsp. unfold afterToken. rewrite append_cons, append_nil_l.
  rewrite skipSpace_then by done.
  rewrite (skipSpace_id (String "," rest)) by done. simpl.
  by rewrite string_drop_cons, string_drop_0.
Qed.

Lemma afterToken_plain_end tok sp :
  spaceString sp ->
  afterToken tok sp = Some ({| Value := tok; Q := Float64.one |}, None).
Proof.
  intros Hsp. unfold afterToken. by rewrite skipSpace_spaces.
Qed.

Lemma afterToken_malformed tok sp junk :
  spaceString sp -> malformedParam junk ->
  afterToken tok (sp +:+ ";" +:+ junk) = None.
Proof.
  intros Hsp Hjunk. unfold afterToken. rewrite append_cons, append_nil_l.
  rewrite skipSpace_then by done. simpl.
  rewrite string_drop_cons, string_drop_0.
  destruct Hjunk as [Hq|Hq]; simpl in Hq.
  - by rewrite Hq.
  - destruct (negb (HasPrefix (skipSpace junk) "q=")); [done|].
    destruct (expectQuality _) as [q s]. simpl in Hq. by rewrite Hq.
Qed.

Lemma afterToken_quality tok sp1 sp2 qt tail :
  spaceString sp1 -> spaceString sp2 -> qualityText qt = true ->
  Float64.ltb (qualityOf qt) Float64.zero = false ->
  startsWith (fun b => digitByte b || Ascii.eqb b ".") tail = false ->
  afterToken tok (sp1 +:+ ";" +:+ sp2 +:+ "q=" +:+ qt +:+ tail)
  = Some ({| Value := tok; Q := qualityOf qt |},
          if negb (HasPrefix (skipSpace tail) ",") then None
          else Some (skipSpace (string_drop 1 (skipSpace tail)))).
Proof.
  intros Hsp1 Hsp2 Hqt Hq Htail. unfold afterToken.
  rewrite !append_cons, !append_nil_l.
  rewrite skipSpace_then by done. simpl.
  rewrite string_drop_cons, string_drop_0.
  rewrite skipSpace_then by done. simpl.
  rewrite !string_drop_cons, string_drop_0.
  rewrite expectQuality_app by done. by rewrite Hq.
Qed.

Lemma entry_text_head t e tail :
  entry_text t e -> startsWith tokenByte (t +:+ tail) = true.
Proof.
  intros [tok sp [Htok Hne] _|tok sp1 sp2 qt sp3 [Htok Hne] _ _ _ _ _];
    rewrite ?append_assoc;
    (destruct tok as [|b tok]; [done|]); rewrite append_cons; simpl;
    simpl in Htok; by apply andb_true_iff in Htok as [? _].
Qed.

Lemma tokenByte_not_space b : tokenByte b = true -> spaceByte b = false.
Proof.
  intros Hb. destruct (spaceByte b) eqn:Hs; [|done].
  apply spaceByte_not_token in Hs. congruence.
Qed.

Lemma startsWith_token_not_space s :
  startsWith tokenByte s = true -> startsWith spaceByte s = false.
Proof. destruct s as [|b s]; simpl; [done|]. apply tokenByte_not_space. Qed.

Lemma parseEntry_entry_comma t e rest :
  entry_text t e ->
  parseEntry (t +:+ "," +:+ rest) = Some (e, Some (skipSpace rest)).
Proof.
  intros [tok sp Htok Hsp|tok sp1 sp2 qt sp3 Htok Hsp1 Hsp2 Hsp3 Hqt Hq];
    rewrite !append_assoc.
  - rewrite parseEntry_token; [by apply afterToken_plain_comma|done|].
    rewrite append_cons, append_nil_l.
    by apply startsWith_space_then; [apply spaceByte_not_token|..].
  - rewrite parseEntry_token; [|done|].
    + rewrite afterToken_quality; [|done..|].
      * rewrite append_cons, append_nil_l, skipSpace_then by done. simpl.
        by rewrite string_drop_cons, string_drop_0.
      * rewrite append_cons, append_nil_l.
        by apply startsWith_space_then; [apply spaceByte_not_digit|..].
    + rewrite append_cons, append_nil_l.
      by apply startsWith_space_then; [apply spaceByte_not_token|..].
Qed.

Lemma parseEntry_entry_end t e :
  entry_text t e -> parseEntry t = Some (e, None).
Proof.
  intros [tok sp Htok Hsp|tok sp1 sp2 qt sp3 Htok Hsp1 Hsp2 Hsp3 Hqt Hq].
  - rewrite parseEntry_token; [by apply afterToken_plain_end|done|].
    rewrite <- (append_nil_r sp).
    apply startsWith_app_space; [apply spaceByte_not_token|done..].
  - rewrite parseEntry_token; [|done|].
    + rewrite afterToken_quality; [|done..|].
      * by rewrite skipSpace_spaces.
      * rewrite <- (append_nil_r sp3).
        apply startsWith_app_space; [apply spaceByte_not_digit|done..].
    + rewrite append_cons, append_nil_l.
      by apply startsWith_space_then; [apply spaceByte_not_token|..].
Qed.

Lemma parseEntry_malformed tok sp junk :
  tokenString tok -> spaceString sp -> malformedParam junk ->
  parseEntry (tok +:+ sp +:+ ";" +:+ junk) = None.
Proof.
  intros Htok Hsp Hjunk.
  rewrite parseEntry_token; [by apply afterToken_malformed|done|].
  rewrite append_cons, append_nil_l.
  by apply startsWith_space_then; [apply spaceByte_not_token|..].
Qed.

(** A run of well-formed entries in front of any text that starts an
    entry is parsed entry by entry. *)
Lemma parseValue_entries pre l tail specs :
  entries_text pre l -> startsWith spaceByte tail = false ->
  parseValue (pre +:+ tail) specs = parseValue tail (specs ++ l).
Proof.
  intros Hpre Htail. revert specs.
  induction Hpre as [|t e sp rest l Ht Hsp Hrest IH]; intros specs.
  - by rewrite append_nil_l, app_nil_r.
  - rewrite !append_assoc, parseValue_step.
    rewrite (parseEntry_entry_comma t e) by done.
    rewrite skipSpace_app by done.
    assert (startsWith spaceByte (rest +:+ tail) = false) as Hns.
    { destruct Hrest as [|t' e' sp' rest' l' Ht' _ _]; [done|].
      rewrite !append_assoc. apply startsWith_token_not_space.
      by eapply entry_text_head. }
    rewrite skipSpace_id by done. rewrite IH.
    by rewrite <- app_assoc.
Qed.

(** ** Negotiation *)

Lemma elem_of_drop_list {A} (x : A) (n : nat) (l : list A) :
  x ∈ drop n l -> x ∈ l.
Proof.
  intros [j Hj]%list_elem_of_lookup. rewrite lookup_drop in Hj.
  by eapply list_elem_of_lookup_2.
Qed.

Section Negotiate.
Import Float64 Float64Facts.

(** The nested loops, started at -1, end on the earliest offer that
    reaches the highest quality. *)
Lemma negotiateLoop_selects specs offers st i o e :
  (forall e', e' ∈ specs -> ltb (Q e') zero = false) ->
  fst st = minus_one ->
  offers !! i = Some o -> e ∈ specs -> specMatches e o = true ->
  is_nan (Q e) = false ->
  (forall o' e', o' ∈ offers -> e' ∈ specs -> specMatches e' o' = true ->
                 gtb (Q e') (Q e) = false) ->
  (forall j o' e', (j < i)%nat -> offers !! j = Some o' -> e' ∈ specs ->
                   specMatches e' o' = true -> eqb (Q e') (Q e) = false) ->
  exists q, negotiateLoop specs offers st = (q, o) /\ eqb q (Q e) = true.
Proof.
  intros Hnonneg Hst Hi He Hm Hnum Hmax Hfirst.
  set (P := fun e' : acceptSpec =>
              specMatches e' o = true /\ eqb (Q e') (Q e) = true).
  assert (is_Some (list_find P specs)) as [[k e1] Hfind].
  { apply (list_find_elem_of P specs e); [done|]. split; [done|].
    by apply eqb_refl. }
  apply list_find_Some in Hfind as (Hk & [Hm1 Heq1] & Hleast).
  assert (is_nan (Q e1) = false) as Hnum1 by (by eapply eqb_number).
  assert (forall o' e', o' ∈ offers -> e' ∈ specs ->
            specMatches e' o' = true -> eqb (Q e') (Q e) = false ->
            below (Q e1) e') as Hbelow.
  { intros o' e' Ho' He' Hm' Hne. unfold below.
    destruct (is_nan (Q e')) eqn:Hnan; [by right|left].
    rewrite (eqb_ltb_r (Q e1) (Q e) (Q e') Heq1).
    apply below_of_not_above; eauto. }
  assert (forall o' e', o' ∈ offers -> e' ∈ specs ->
            specMatches e' o' = true -> gtb (Q e') (Q e1) = false) as Hmax1.
  { intros o' e' Ho' He' Hm'.
    change (ltb (Q e1) (Q e') = false).
    rewrite (eqb_ltb_l (Q e1) (Q e) (Q e') Heq1). by eapply Hmax. }
  exists (Q e1). split; [|done].
  rewrite <- (take_drop_middle offers i o Hi).
  apply (negotiateLoop_first_best specs _ _ _ (take k specs) e1
           (drop (S k) specs)).
  - symmetry. by apply take_drop_middle.
  - done.
  - rewrite Hst. apply minus_one_lt; [done|].
    apply Hnonneg. by eapply list_elem_of_lookup_2.
  - intros o' e' Ho' He' Hm'.
    apply list_elem_of_lookup in Ho' as [j Hj].
    apply lookup_take_Some in Hj as [Hj Hlt].
    apply (Hbelow o'); [by eapply list_elem_of_lookup_2|done..|].
    by eapply Hfirst.
  - intros e' He' Hm'.
    apply list_elem_of_lookup in He' as [j Hj].
    apply lookup_take_Some in Hj as [Hj Hlt].
    apply (Hbelow o);
      [by eapply list_elem_of_lookup_2|by eapply list_elem_of_lookup_2
      |done|].
    destruct (eqb (Q e') (Q e)) eqn:Heq'; [|done].
    destruct (Hleast j e' Hj Hlt). by split.
  - intros e' He' Hm'. apply (Hmax1 o); [|by eapply elem_of_drop_list|done].
    by eapply list_elem_of_lookup_2.
  - intros o' e' Ho' He' Hm'. apply (Hmax1 o'); [|done..].
    by eapply elem_of_drop_list.
Qed.

(** When the best matching quality is zero, the loops end at zero. *)
Lemma negotiateLoop_rejects specs offers st o e :
  (forall e', e' ∈ specs -> ltb (Q e') zero = false) ->
  fst st = minus_one ->
  o ∈ offers -> e ∈ specs -> specMatches e o = true ->
  eqb (Q e) zero = true ->
  (forall o' e', o' ∈ offers -> e' ∈ specs -> specMatches e' o' = true ->
                 gtb (Q e') zero = false) ->
  eqb (fst (negotiateLoop specs offers st)) zero = true.
Proof.
  intros Hnonneg Hst Ho He Hm Hzero Hmax.
  set (hit := fun (o' : string) (e' : acceptSpec) =>
                specMatches e' o' && eqb (Q e') zero).
  set (P := fun o' : string => existsb (hit o') specs = true).
  assert (is_Some (list_find P offers)) as [[i o1] Hfind].
  { apply (list_find_elem_of P offers o); [done|].
    apply existsb_exists. exists e. split; [by apply list_elem_of_In|].
    unfold hit. by rewrite Hm, Hzero. }
  apply list_find_Some in Hfind as (Hi & Hhit & Hleast).
  apply existsb_exists in Hhit as (e1 & He1%list_elem_of_In & Hhit).
  apply andb_true_iff in Hhit as [Hm1 Hz1].
  destruct (negotiateLoop_selects specs offers st i o1 e1)
    as (q & -> & Hq); try done.
  - by eapply eqb_number.
  - intros o' e' Ho' He' Hm'.
    change (ltb (Q e1) (Q e') = false).
    rewrite (eqb_ltb_l (Q e1) zero (Q e') Hz1). by eapply Hmax.
  - intros j o' e' Hlt Hj He' Hm'.
    destruct (eqb (Q e') (Q e1)) eqn:Heq; [|done].
    destruct (Hleast j o' Hj Hlt). apply existsb_exists.
    exists e'. split; [by apply list_elem_of_In|].
    unfold hit. rewrite Hm'. simpl.
    by rewrite (eqb_eqb_l (Q e') (Q e1) zero Heq).
  - simpl. by rewrite (eqb_eqb_l q (Q e1) zero Hq).
Qed.

Lemma negotiateAcceptHeader_unfold inp offers fallback :
  negotiateAcceptHeader inp offers fallback
  = let st := negotiateLoop (parseAccept inp) offers
                (minus_one,
                 if String.eqb fallback "" then IDENTITY else fallback) in
    if eqb (fst st) zero then EmptyString else snd st.
Proof.
  unfold negotiateAcceptHeader. by destruct (negotiateLoop _ _ _).
Qed.
End Negotiate.

(* ===================================================================== *)
(** * The claims *)

(** C1.  negotiateAcceptHeader selects the offer of highest quality among
    the parsed entries whose token is the offer or the wildcard, and among
    offers that reach that quality the one listed first in the offer list:
    whenever an entry [e] matches the offer [o] at position [i] with a
    quality that is a number, no matching entry of any offer has a higher
    quality, and no entry matching an offer listed before [i] has an equal
    quality, the negotiation selects [o].  The selected offer is what is
    returned, except that a selection made at quality 0 is reported as the
    empty identifier (claim C2).  The two examples of the specification
    evaluate to br and gzip. *)
Theorem negotiate_selects_best_offer :
  (forall (inp offers : list string) (fallback : string) (i : nat)
          (o : string) (e : acceptSpec),
      offers !! i = Some o ->
      e ∈ parseAccept inp -> specMatches e o = true ->
      Float64.is_nan (Q e) = false ->
      (forall o' e', o' ∈ offers -> e' ∈ parseAccept inp ->
                     specMatches e' o' = true ->
                     Float64.gtb (Q e') (Q e) = false) ->
      (forall j o' e', (j < i)%nat -> offers !! j = Some o' ->
                       e' ∈ parseAccept inp -> specMatches e' o' = true ->
                       Float64.eqb (Q e') (Q e) = false) ->
      negotiateAcceptHeader inp offers fallback
      = if Float64.eqb (Q e) Float64.zero then EmptyString else o)
  /\ negotiateAcceptHeader ["gzip;q=0.5, br;q=0.8"] ["gzip"; "br"] "identity"
     = "br"
  /\ negotiateAcceptHeader ["*;q=0.3"] ["gzip"; "br"] "identity" = "gzip".
Proof.
  split; [|split; reflexivity].
  intros inp offers fallback i o e Hi He Hm Hnum Hmax Hfirst.
  rewrite negotiateAcceptHeader_unfold.
  destruct (negotiateLoop_selects (parseAccept inp) offers
              (Float64.minus_one,
               if String.eqb fallback "" then IDENTITY else fallback)
              i o e) as (q & -> & Hq); try done.
  { intros e'. apply parseAccept_nonneg. }
  simpl. by rewrite (Float64Facts.eqb_eqb_l q (Q e) Float64.zero Hq).
Qed.

Ltac split_elem :=
  repeat match goal with
         | H : _ ∈ _ :: _ |- _ => apply elem_of_cons in H as [->|H]
         | H : _ ∈ [] |- _ => by apply elem_of_nil in H
         end.

Example parseAccept_tie :
  parseAccept ["br;q=0.8, gzip;q=0.8"]
  = [ {| Value := "br"; Q := S754_finite false 7205759403792794 (-53) |};
      {| Value := "gzip"; Q := S754_finite false 7205759403792794 (-53) |} ].
Proof. reflexivity. Qed.

(** C1 at a tie: the header lists br first, the offers list gzip first,
    both at 0.8; gzip is selected. *)
Lemma negotiate_selects_best_offer_witness :
  negotiateAcceptHeader ["br;q=0.8, gzip;q=0.8"] ["gzip"; "br"] "identity"
  = "gzip".
Proof.
  apply (proj1 negotiate_selects_best_offer
           ["br;q=0.8, gzip;q=0.8"] ["gzip"; "br"] "identity" 0%nat "gzip"
           {| Value := "gzip";
              Q := S754_finite false 7205759403792794 (-53) |}).
  - reflexivity.
  - rewrite parseAccept_tie. apply elem_of_cons. right. apply elem_of_cons.
    by left.
  - reflexivity.
  - reflexivity.
  - intros o' e' Ho' He' Hm'. rewrite parseAccept_tie in He'.
    split_elem; reflexivity.
  - intros j o' e' Hj. lia.
Defined.

(** C2.  negotiateAcceptHeader returns the empty identifier when the best
    quality among the matching entries is exactly 0: some entry matches
    an offer at a quality equal to 0 and no matching entry has a quality
    above 0.  It returns the fallback identifier it was given (an
    identifier is not empty) when no parsed entry matches any offer.  The
    two examples of the specification evaluate to the empty identifier
    and to identity. *)
Theorem negotiate_rejection_and_fallback :
  (forall (inp offers : list string) (fallback o : string) (e : acceptSpec),
      o ∈ offers -> e ∈ parseAccept inp -> specMatches e o = true ->
      Float64.eqb (Q e) Float64.zero = true ->
      (forall o' e', o' ∈ offers -> e' ∈ parseAccept inp ->
                     specMatches e' o' = true ->
                     Float64.gtb (Q e') Float64.zero = false) ->
      negotiateAcceptHeader inp offers fallback = EmptyString)
  /\ (forall (inp offers : list string) (fallback : string),
      fallback <> EmptyString ->
      (forall o e, o ∈ offers -> e ∈ parseAccept inp ->
                   specMatches e o = false) ->
      negotiateAcceptHeader inp offers fallback = fallback)
  /\ negotiateAcceptHeader ["gzip;q=0"] ["gzip"] "identity" = EmptyString
  /\ negotiateAcceptHeader [] ["gzip"; "br"] "identity" = "identity".
Proof.
  split; [|split; [|split; reflexivity]].
  - intros inp offers fallback o e Ho He Hm Hzero Hmax.
    rewrite negotiateAcceptHeader_unfold. simpl.
    rewrite (negotiateLoop_rejects (parseAccept inp) offers _ o e);
      try done.
    intros e'. apply parseAccept_nonneg.
  - intros inp offers fallback Hne Hnone.
    rewrite negotiateAcceptHeader_unfold.
    rewrite negotiateLoop_keep.
    + simpl. by apply String.eqb_neq in Hne as ->.
    + intros o e Ho He Hm. rewrite (Hnone o e Ho He) in Hm. done.
Qed.

Example parseAccept_zero :
  parseAccept ["gzip;q=0"] = [ {| Value := "gzip"; Q := S754_zero false |} ].
Proof. reflexivity. Qed.

Example parseAccept_other :
  parseAccept ["zstd"]
  = [ {| Value := "zstd"; Q := S754_finite false 4503599627370496 (-52) |} ].
Proof. reflexivity. Qed.

(** C2 on a rejection (gzip at quality 0) and on a header that names no
    offer (zstd against gzip and br). *)
Lemma negotiate_rejection_and_fallback_witness :
  negotiateAcceptHeader ["gzip;q=0"] ["gzip"; "br"] "identity" = EmptyString
  /\ negotiateAcceptHeader ["zstd"] ["gzip"; "br"] "identity" = "identity".
Proof.
  split.
  - apply (proj1 negotiate_rejection_and_fallback
             ["gzip;q=0"] ["gzip"; "br"] "identity" "gzip"
             {| Value := "gzip"; Q := S754_zero false |}).
    + apply elem_of_cons. by left.
    + rewrite parseAccept_zero. apply elem_of_cons. by left.
    + reflexivity.
    + reflexivity.
    + intros o' e' Ho' He' Hm'. rewrite parseAccept_zero in He'.
      split_elem; reflexivity.
  - apply (proj1 (proj2 negotiate_rejection_and_fallback)
             ["zstd"] ["gzip"; "br"] "identity").
    + discriminate.
    + intros o e Ho He. rewrite parseAccept_other in He.
      split_elem; reflexivity.
Defined.

(** The claim of C3 fails on its own example: the well-formed entry br
    that follows the malformed parameter of gzip is not parsed, although
    br alone is. *)
Lemma parseAccept_skips_counterexample :
  parseAccept ["gzip;foo=1, br"] = []
  /\ parseAccept ["br"] = [ {| Value := "br"; Q := Float64.one |} ].
Proof. split; reflexivity. Qed.

(** C3, amended.  parseAccept never fails: it is a total function, and
    the iterations it needs never exceed the length of the header value.
    At an entry whose parameter is malformed the loop leaves the current
    header value: the entries parsed before it in that value are kept,
    the entry itself and everything after it in the same value, beyond
    the next comma too, are dropped, and the other header values are
    parsed as usual. *)
Theorem parseAccept_malformed_entry :
  (forall (before after : list string) (pre tok sp junk : string)
          (l : list acceptSpec),
      entries_text pre l -> tokenString tok -> spaceString sp ->
      malformedParam junk ->
      parseAccept (before ++ [pre +:+ tok +:+ sp +:+ ";" +:+ junk] ++ after)
      = parseAccept before ++ l ++ parseAccept after)
  /\ (forall (fuel : nat) (s : string) (specs : list acceptSpec),
      (String.length s < fuel)%nat ->
      parseEntries fuel s specs = parseValue s specs).
Proof.
  split.
  - intros before after pre tok sp junk l Hpre Htok Hsp Hjunk.
    rewrite parseAccept_app. f_equal.
    change ([?x] ++ after) with (x :: after).
    rewrite parseAccept_cons. f_equal.
    rewrite (parseValue_entries pre l); [|done|].
    + rewrite parseValue_step, parseEntry_malformed by done. done.
    + apply startsWith_token_not_space.
      destruct Htok as [Htok Hne]. destruct tok as [|b tok]; [done|].
      rewrite append_cons. simpl in *.
      by apply andb_true_iff in Htok as [? _].
  - intros fuel s specs Hfuel. unfold parseValue.
    apply parseEntries_fuel; lia.
Qed.

(** C3 amended, on three header values: in the second one gzip is kept,
    br with its parameter foo=1 and the entry s2 after it are dropped. *)
Lemma parseAccept_malformed_entry_witness :
  parseAccept ["deflate"; "gzip, br ;foo=1, s2"; "snappy"]
  = parseAccept ["deflate"]
    ++ [ {| Value := "gzip"; Q := Float64.one |} ]
    ++ parseAccept ["snappy"].
Proof.
  apply (proj1 parseAccept_malformed_entry
           ["deflate"] ["snappy"] "gzip, " "br" " " "foo=1, s2"
           [ {| Value := "gzip"; Q := Float64.one |} ]).
  - apply (entries_cons ("gzip" +:+ "") _ " " "" []).
    + apply entry_plain; [split; [reflexivity|discriminate]|reflexivity].
    + reflexivity.
    + apply entries_nil.
  - split; [reflexivity|discriminate].
  - reflexivity.
  - left. reflexivity.
Defined.

(** The claim of C4 fails above 1.0: the quality text 1.5 is accepted and
    gives a weight outside the interval. *)
Lemma parseAccept_quality_counterexample :
  exists e : acceptSpec,
    e ∈ parseAccept ["gzip;q=1.5"] /\ inUnitInterval (Q e) = false.
Proof.
  exists {| Value := "gzip"; Q := S754_finite false 6755399441055744 (-52) |}.
  split; [|reflexivity].
  change (parseAccept ["gzip;q=1.5"])
    with [ {| Value := "gzip";
              Q := S754_finite false 6755399441055744 (-52) |} ].
  apply elem_of_cons. by left.
Qed.

(** C4, amended.  No quality weight produced by parsing compares below
    0.0 (an entry whose quality is read as negative is dropped); no upper
    bound is enforced.  The quality of an entry that omits the q
    parameter is exactly 1.0, wherever the entry stands in a header value
    of well-formed entries. *)
Theorem parseAccept_quality_range :
  (forall (inp : list string) (e : acceptSpec),
      e ∈ parseAccept inp -> Float64.ltb (Q e) Float64.zero = false)
  /\ (forall (pre tok sp tail : string) (l : list acceptSpec),
      entries_text pre l -> tokenString tok -> spaceString sp ->
      tail = EmptyString \/ (exists r, tail = "," +:+ r) ->
      parseValue (pre +:+ tok +:+ sp +:+ tail) [] !! length l
      = Some {| Value := tok; Q := Float64.one |}).
Proof.
  split; [apply parseAccept_nonneg|].
  intros pre tok sp tail l Hpre Htok Hsp Htail.
  rewrite (parseValue_entries pre l); [|done|].
  - rewrite parseValue_step. simpl.
    assert (exists r, parseEntry (tok +:+ sp +:+ tail)
                      = Some ({| Value := tok; Q := Float64.one |}, r))
      as [r ->].
    { destruct Htail as [->|[r ->]].
      - rewrite append_nil_r. eexists.
        apply parseEntry_entry_end. by constructor.
      - rewrite <- append_assoc. eexists.
        apply (parseEntry_entry_comma (tok +:+ sp)). by constructor. }
    destruct r as [rest|].
    + rewrite parseValue_acc, lookup_app_l by (rewrite length_app; simpl; lia).
      by apply list_lookup_middle.
    + by apply list_lookup_middle.
  - apply startsWith_token_not_space.
    destruct Htok as [Htok Hne]. destruct tok as [|b tok]; [done|].
    rewrite append_cons. simpl in *.
    by apply andb_true_iff in Htok as [? _].
Qed.

(** C4 amended, on a header value whose second entry omits q. *)
Lemma parseAccept_quality_range_witness :
  Float64.ltb (Q {| Value := "gzip"; Q := S754_finite false 6755399441055744 (-52) |})
    Float64.zero = false
  /\ parseValue "br;q=0.2, gzip , s2" [] !! 1%nat
     = Some {| Value := "gzip"; Q := Float64.one |}.
Proof.
  split.
  - apply (proj1 parseAccept_quality_range ["gzip;q=1.5"]).
    change (parseAccept ["gzip;q=1.5"])
      with [ {| Value := "gzip";
                Q := S754_finite false 6755399441055744 (-52) |} ].
    apply elem_of_cons. by left.
  - apply (proj2 parseAccept_quality_range
             "br;q=0.2, " "gzip" " " ", s2"
             [ {| Value := "br"; Q := qualityOf "0.2" |} ]).
    + apply (entries_cons
               ("br" +:+ "" +:+ ";" +:+ "" +:+ "q=" +:+ "0.2" +:+ "")
               _ " " "" []).
      * apply entry_quality; try reflexivity.
        split; [reflexivity|discriminate].
      * reflexivity.
      * apply entries_nil.
    + split; [reflexivity|discriminate].
    + reflexivity.
    + right. by exists " s2".
Defined.

(** ** The registry and the response writer *)

Section Decorator.
Context `{Externals}.

Lemma NewWriter_supported encoding level cw :
  NewWriter encoding level = inl cw ->
  encoding ∈ [GZIP; DEFLATE; BROTLI; SNAPPY; S2].
Proof.
  unfold NewWriter. intros Hnew.
  destruct (String.eqb_spec encoding GZIP) as [->|_]; [set_solver|].
  destruct (String.eqb_spec encoding DEFLATE) as [->|_]; [set_solver|].
  destruct (String.eqb_spec encoding BROTLI) as [->|_]; [set_solver|].
  destruct (String.eqb_spec encoding SNAPPY) as [->|_]; [set_solver|].
  destruct (String.eqb_spec encoding S2) as [->|_]; [set_solver|].
  discriminate.
Qed.

Lemma NewResponseWriter_inl w r level rw :
  NewResponseWriter w r level = inl rw ->
  rwResponseWriter rw
  = Sink_setHeader w (AddCompressHeaders (sinkHeader w) (rwEncoding rw))
  /\ rwEncoding rw
     = negotiateAcceptHeader
         (Header_Values (reqHeader r) AcceptEncodingHeaderKey)
         [GZIP; DEFLATE; BROTLI; SNAPPY; S2] IDENTITY
  /\ NewWriter (rwEncoding rw) (rwLevel rw) = inl (rwWriter rw)
  /\ rwAutoFlush rw = true /\ rwWroteHeader rw = false /\ rwCalls rw = [].
Proof.
  unfold NewResponseWriter.
  destruct (length _ =? 0)%nat; [done|].
  destruct (String.eqb _ ""); [done|].
  destruct (NewWriter _ _) as [cw|err] eqn:Hnew; [|done].
  intros [= <-]. simpl. by rewrite Hnew.
Qed.

Lemma WriteHeader_calls w statusCode :
  sinkWriteHeaders (rwCalls (ResponseWriter_WriteHeader w statusCode))
  = sinkWriteHeaders (rwCalls w)
    ++ (if rwWroteHeader w then [] else [statusCode]).
Proof.
  unfold ResponseWriter_WriteHeader.
  destruct (rwWroteHeader w); simpl; [by rewrite app_nil_r|].
  unfold sinkWriteHeaders. by rewrite omap_app.
Qed.

Lemma WriteHeader_wrote w statusCode :
  rwWroteHeader (ResponseWriter_WriteHeader w statusCode) = true.
Proof.
  unfold ResponseWriter_WriteHeader. by destruct (rwWroteHeader w) eqn:E.
Qed.

(** The state after [Write], field by field. *)
Lemma Write_state w p :
  let w' := fst (ResponseWriter_Write w p) in
  let werr := snd (stream_Write (rwWriter w)
                (rwCalls w ++ (if rwWroteHeader w then []
                               else [SinkWriteHeader StatusOK])) p) in
  rwWriter w' = rwWriter w
  /\ rwAutoFlush w' = rwAutoFlush w
  /\ rwWroteHeader w' = true
  /\ rwHeader w'
     = (let h := match rwHeader w !! ContentTypeHeaderKey with
                 | None => <[ContentTypeHeaderKey := [DetectContentType p]]>
                             (rwHeader w)
                 | Some _ => rwHeader w
                 end in
        if rwWroteHeader w then h else delete ContentLengthHeaderKey h)
  /\ rwCalls w'
     = rwCalls w
       ++ (if rwWroteHeader w then [] else [SinkWriteHeader StatusOK])
       ++ [StreamWrite p]
       ++ (match werr with
           | Some _ => []
           | None => if rwAutoFlush w then [StreamFlush] else []
           end).
Proof.
  unfold ResponseWriter_Write, ResponseWriter_WriteHeader, rwHeader.
  destruct w as [cw [h ? ? ? ?] ? ? ? enc lvl af wrote calls]. simpl.
  destruct (h !! ContentTypeHeaderKey) eqn:Hct; simpl;
    destruct wrote; simpl; rewrite ?app_nil_r;
    destruct (stream_Write cw _ p) as [n [e|]]; simpl;
    destruct af; simpl; rewrite ?app_nil_r, <- ?app_assoc; done.
Qed.
End Decorator.

(** C5 fails on Content-Length: construction succeeds (br is negotiated)
    and the Content-Length that was set before is still in the map. *)
Lemma NewResponseWriter_ContentLength_counterexample :
  exists rw : ResponseWriter,
    NewResponseWriter (H := acceptingLibraries) exampleSink exampleRequest (-1)
    = inl rw
    /\ rwHeader rw !! ContentLengthHeaderKey = Some ["42"].
Proof. eexists. split; [vm_compute; reflexivity|reflexivity]. Qed.

(** C5, amended.  After a successful NewResponseWriter the header map of
    the sink holds Vary: Accept-Encoding and Content-Encoding: the chosen
    identifier, which is one of the five supported ones; every other
    header, a Content-Length included, is as it was before.  The
    Content-Length header is absent once the status has been sent: after
    WriteHeader, and after the first Write, which sends the status. *)
Theorem NewResponseWriter_headers `{Externals} :
  forall (w : Sink) (r : Request) (level : Z) (rw : ResponseWriter),
    NewResponseWriter w r level = inl rw ->
    rwHeader rw !! VaryHeaderKey = Some [AcceptEncodingHeaderKey]
    /\ rwHeader rw !! ContentEncodingHeaderKey = Some [rwEncoding rw]
    /\ rwEncoding rw ∈ [GZIP; DEFLATE; BROTLI; SNAPPY; S2]
    /\ (forall key : string,
          key <> VaryHeaderKey -> key <> ContentEncodingHeaderKey ->
          rwHeader rw !! key = sinkHeader w !! key)
    /\ (forall statusCode : Z,
          rwHeader (ResponseWriter_WriteHeader rw statusCode)
            !! ContentLengthHeaderKey = None)
    /\ (forall p : list Byte.byte,
          rwHeader (fst (ResponseWriter_Write rw p))
            !! ContentLengthHeaderKey = None).
Proof.
  intros w r level rw Hnew.
  destruct (NewResponseWriter_inl w r level rw Hnew)
    as (Hsink & Henc & Hcw & Hflush & Hwrote & Hcalls).
  assert (rwHeader rw = AddCompressHeaders (sinkHeader w) (rwEncoding rw))
    as Hh by (unfold rwHeader; by rewrite Hsink).
  split_and!.
  - rewrite Hh. unfold AddCompressHeaders, Header_Set.
    rewrite lookup_insert_ne by done. by rewrite lookup_insert_eq.
  - rewrite Hh. unfold AddCompressHeaders, Header_Set.
    by rewrite lookup_insert_eq.
  - by eapply NewWriter_supported.
  - intros key Hk1 Hk2. rewrite Hh. unfold AddCompressHeaders, Header_Set.
    by rewrite !lookup_insert_ne.
  - intros statusCode. unfold ResponseWriter_WriteHeader. rewrite Hwrote.
    simpl. unfold rwHeader at 1. simpl. by rewrite lookup_delete_eq.
  - intros p. destruct (Write_state rw p) as (_ & _ & _ & -> & _).
    rewrite Hwrote. simpl. by rewrite lookup_delete_eq.
Qed.

Example NewResponseWriter_example :
  NewResponseWriter (H := acceptingLibraries) exampleSink exampleRequest (-1)
  = inl exampleWriter.
Proof. vm_compute. reflexivity. Qed.

(** C5 amended, on the example: br is chosen, Content-Length survives
    the construction and is gone after WriteHeader. *)
Lemma NewResponseWriter_headers_witness :
  rwHeader exampleWriter !! VaryHeaderKey = Some [AcceptEncodingHeaderKey]
  /\ rwHeader exampleWriter !! ContentEncodingHeaderKey = Some [BROTLI]
  /\ rwHeader exampleWriter !! ContentLengthHeaderKey = Some ["42"]
  /\ rwHeader (ResponseWriter_WriteHeader exampleWriter 200)
       !! ContentLengthHeaderKey = None.
Proof.
  destruct (NewResponseWriter_headers (H := acceptingLibraries)
              exampleSink exampleRequest (-1) exampleWriter
              NewResponseWriter_example)
    as (Hvary & Hce & _ & Hother & Hcl & _).
  split; [exact Hvary|]. split; [exact Hce|].
  split; [by rewrite Hother|]. apply Hcl.
Defined.

(** ** Write *)

Section Write.
Context `{Externals}.

Lemma Write_keeps_ContentType w p v :
  rwHeader w !! ContentTypeHeaderKey = Some v ->
  rwHeader (fst (ResponseWriter_Write w p)) !! ContentTypeHeaderKey
  = Some v.
Proof.
  intros Hct. destruct (Write_state w p) as (_ & _ & _ & -> & _).
  rewrite Hct. destruct (rwWroteHeader w); [done|].
  by rewrite lookup_delete_ne.
Qed.

Lemma Write_sets_ContentType w p :
  rwHeader (fst (ResponseWriter_Write w p)) !! ContentTypeHeaderKey
  = Some match rwHeader w !! ContentTypeHeaderKey with
         | Some v => v
         | None => [DetectContentType p]
         end.
Proof.
  destruct (rwHeader w !! ContentTypeHeaderKey) as [v|] eqn:Hct;
    [by apply Write_keeps_ContentType|].
  destruct (Write_state w p) as (_ & _ & _ & -> & _). rewrite Hct.
  destruct (rwWroteHeader w);
    rewrite ?lookup_delete_ne by done; by rewrite lookup_insert_eq.
Qed.

Lemma writeAll_keeps_ContentType w ps v :
  rwHeader w !! ContentTypeHeaderKey = Some v ->
  rwHeader (writeAll w ps) !! ContentTypeHeaderKey = Some v.
Proof.
  unfold writeAll. revert w.
  induction ps as [|p ps IH]; intros w Hct; simpl; [done|].
  apply IH. by apply Write_keeps_ContentType.
Qed.

Lemma writeAll_calls w ps :
  rwAutoFlush w = true -> rwWroteHeader w = true ->
  (forall calls q, snd (stream_Write (rwWriter w) calls q) = None) ->
  rwCalls (writeAll w ps)
  = rwCalls w ++ flat_map (fun q => [StreamWrite q; StreamFlush]) ps.
Proof.
  unfold writeAll. revert w.
  induction ps as [|p ps IH]; intros w Hflush Hwrote Hok; simpl.
  - by rewrite app_nil_r.
  - destruct (Write_state w p) as (Hcw & Hfl & Hwr & _ & Hcalls).
    rewrite IH; [|congruence|done|by rewrite Hcw].
    rewrite Hcalls, Hwrote, Hok, Hflush. simpl.
    by rewrite <- app_assoc.
Qed.
End Write.

(** C6.  After construction AutoFlush is on and no status has been sent.
    Over any sequence of writes, the Content-Type of the response is the
    one the handler had set, or else the type sniffed from the first
    chunk, set by the first write and never sniffed again.  When no
    status was sent before, the first write sends the status 200 to the
    sink before its chunk reaches the compressing stream.  With AutoFlush
    on, every chunk that the compressing stream accepts is followed at
    once by a flush of that stream. *)
Theorem Write_sniffs_once_and_flushes `{Externals} :
  (forall (w0 : Sink) (r : Request) (level : Z) (w : ResponseWriter),
      NewResponseWriter w0 r level = inl w ->
      rwAutoFlush w = true /\ rwWroteHeader w = false)
  /\ (forall (w : ResponseWriter) (p : list Byte.byte)
             (ps : list (list Byte.byte)),
      rwHeader (writeAll w (p :: ps)) !! ContentTypeHeaderKey
      = Some match rwHeader w !! ContentTypeHeaderKey with
             | Some v => v
             | None => [DetectContentType p]
             end)
  /\ (forall (w : ResponseWriter) (p : list Byte.byte)
             (ps : list (list Byte.byte)),
      rwAutoFlush w = true ->
      (forall calls q, snd (stream_Write (rwWriter w) calls q) = None) ->
      rwCalls (writeAll w (p :: ps))
      = rwCalls w
        ++ (if rwWroteHeader w then [] else [SinkWriteHeader StatusOK])
        ++ flat_map (fun q => [StreamWrite q; StreamFlush]) (p :: ps)).
Proof.
  split_and!.
  - intros w0 r level w Hnew.
    by destruct (NewResponseWriter_inl w0 r level w Hnew)
      as (_ & _ & _ & ? & ? & _).
  - intros w p ps. change (writeAll w (p :: ps))
      with (writeAll (fst (ResponseWriter_Write w p)) ps).
    apply writeAll_keeps_ContentType, Write_sets_ContentType.
  - intros w p ps Hflush Hok. change (writeAll w (p :: ps))
      with (writeAll (fst (ResponseWriter_Write w p)) ps).
    destruct (Write_state w p) as (Hcw & Hfl & Hwr & _ & Hcalls).
    rewrite writeAll_calls; [|congruence|done|by rewrite Hcw].
    rewrite Hcalls, Hok, Hflush. simpl.
    by rewrite <- !app_assoc.
Qed.

(** C6 on the example writer and two chunks. *)
Lemma Write_sniffs_once_and_flushes_witness :
  rwCalls (writeAll (H := acceptingLibraries) exampleWriter
             [[Byte.x68; Byte.x69]; [Byte.x21]])
  = [ SinkWriteHeader 200;
      StreamWrite [Byte.x68; Byte.x69]; StreamFlush;
      StreamWrite [Byte.x21]; StreamFlush ].
Proof.
  apply (proj2 (proj2 (Write_sniffs_once_and_flushes
                         (H := acceptingLibraries)))
           exampleWriter [Byte.x68; Byte.x69] [[Byte.x21]]).
  - reflexivity.
  - intros calls q. reflexivity.
Defined.

(** C8.  NewWriter returns ErrNotSupportedCompression for every
    identifier outside gzip, deflate, br, snappy and s2, and so for
    identity; for br with level -1 the stream is built with level 6. *)
Theorem NewWriter_unsupported_and_brotli_default `{Externals} :
  (forall (encoding : string) (level : Z),
      encoding ∉ [GZIP; DEFLATE; BROTLI; SNAPPY; S2] ->
      NewWriter encoding level = inr ErrNotSupportedCompression)
  /\ (forall level : Z,
      NewWriter IDENTITY level = inr ErrNotSupportedCompression)
  /\ NewWriter BROTLI (-1) = inl (BrotliWriter 6).
Proof.
  split_and!; [|done..].
  intros encoding level Hnot. unfold NewWriter.
  destruct (String.eqb_spec encoding GZIP) as [->|_]; [set_solver|].
  destruct (String.eqb_spec encoding DEFLATE) as [->|_]; [set_solver|].
  destruct (String.eqb_spec encoding BROTLI) as [->|_]; [set_solver|].
  destruct (String.eqb_spec encoding SNAPPY) as [->|_]; [set_solver|].
  destruct (String.eqb_spec encoding S2) as [->|_]; [set_solver|].
  done.
Qed.

(** C8 on an identifier that no codec has. *)
Lemma NewWriter_unsupported_and_brotli_default_witness :
  NewWriter (H := acceptingLibraries) "zstd" 3
  = inr ErrNotSupportedCompression.
Proof.
  apply (proj1 (NewWriter_unsupported_and_brotli_default
                  (H := acceptingLibraries)) "zstd" 3).
  intros Hin.
  repeat (apply elem_of_cons in Hin as [Heq|Hin]; [discriminate Heq|]).
  by apply elem_of_nil in Hin.
Defined.

(** ** Reader *)

Lemma closesOfSource_app src log1 log2 :
  closesOfSource src (log1 ++ log2)
  = (closesOfSource src log1 + closesOfSource src log2)%nat.
Proof. unfold closesOfSource. by rewrite filter_app, length_app. Qed.

(** C7 fails on the source: the Reader built for br over a source that
    has a Close of its own closes nothing when it is closed. *)
Lemma Reader_Close_source_counterexample :
  exists r : Reader,
    NewReader (H := acceptingLibraries) (Some exampleSource) BROTLI = inl r
    /\ Reader_Close r [] = []
    /\ closesOfSource exampleSource (Reader_Close r []) = 0%nat.
Proof. eexists. split; [reflexivity|]. split; reflexivity. Qed.

(** C7, amended.  A Reader keeps the original source in Src, as it is
    when it has a Close of its own and under a no-op closer otherwise.
    Closing the Reader calls the Close of the decompressing stream only:
    the one of the gzip or flate reader, and nothing at all for br,
    snappy and s2, whose readers sit under a no-op closer.  It never
    calls Close on the original source, which is left to its owner; so
    the Reader closes the source neither once nor twice, however often
    the Reader is closed. *)
Theorem Reader_Close_leaves_source `{Externals} :
  forall (src : Source) (encoding : string) (r : Reader),
    NewReader (Some src) encoding = inl r ->
    rdSrc r = (if srcCloser src then SourceReadCloser src
               else noOpReadCloser (SourceReader src))
    /\ (forall log : list closeCall,
          Reader_Close r log
          = log ++ (if String.eqb encoding GZIP then [CloseGzip src]
                    else if String.eqb encoding DEFLATE then [CloseFlate src]
                    else []))
    /\ (forall log : list closeCall,
          closesOfSource src (Reader_Close r log) = closesOfSource src log)
    /\ (forall log : list closeCall,
          closesOfSource src (Reader_Close r (Reader_Close r log))
          = closesOfSource src log).
Proof.
  intros src encoding r Hnew.
  assert (rdSrc r = (if srcCloser src then SourceReadCloser src
                     else noOpReadCloser (SourceReader src))
          /\ forall log,
               Reader_Close r log
               = log ++ (if String.eqb encoding GZIP then [CloseGzip src]
                         else if String.eqb encoding DEFLATE
                              then [CloseFlate src] else []))
    as [Hsrc Hclose].
  { unfold NewReader in Hnew.
    destruct (String.eqb encoding ""); [done|].
    destruct (String.eqb encoding GZIP).
    { destruct (gzip_NewReader src); [done|].
      by injection Hnew as <-. }
    destruct (String.eqb encoding DEFLATE); [by injection Hnew as <-|].
    unfold Reader_Close.
    destruct (String.eqb encoding BROTLI);
      [injection Hnew as <-; simpl; split; [done|];
       intros log; by rewrite app_nil_r|].
    destruct (String.eqb encoding SNAPPY);
      [injection Hnew as <-; simpl; split; [done|];
       intros log; by rewrite app_nil_r|].
    destruct (String.eqb encoding S2);
      [injection Hnew as <-; simpl; split; [done|];
       intros log; by rewrite app_nil_r|].
    done. }
  assert (forall log,
            closesOfSource src (Reader_Close r log) = closesOfSource src log)
    as Hcount.
  { intros log. rewrite Hclose, closesOfSource_app.
    destruct (String.eqb encoding GZIP); [by rewrite Nat.add_0_r|].
    destruct (String.eqb encoding DEFLATE); by rewrite Nat.add_0_r. }
  split_and!; [done..|].
  intros log. by rewrite !Hcount.
Qed.

(** C7 amended, on a gzip Reader closed twice. *)
Lemma Reader_Close_leaves_source_witness :
  closesOfSource exampleSource
    (Reader_Close
       {| rdReadCloser := GzipReader exampleSource;
          rdSrc := SourceReadCloser exampleSource;
          rdEncoding := GZIP |}
       (Reader_Close
          {| rdReadCloser := GzipReader exampleSource;
             rdSrc := SourceReadCloser exampleSource;
             rdEncoding := GZIP |} []))
  = closesOfSource exampleSource [].
Proof.
  apply (proj2 (proj2 (proj2
           (Reader_Close_leaves_source (H := acceptingLibraries)
              exampleSource GZIP _ eq_refl)))).
Defined.

(** ** WriteHeader *)

Section WriteHeader.
Context `{Externals}.

Definition statusInvariant (w : ResponseWriter) : Prop :=
  (length (sinkWriteHeaders (rwCalls w)) <= 1)%nat
  /\ (rwWroteHeader w = false -> sinkWriteHeaders (rwCalls w) = []).

Lemma Write_statuses w p :
  sinkWriteHeaders (rwCalls (fst (ResponseWriter_Write w p)))
  = sinkWriteHeaders (rwCalls w)
    ++ (if rwWroteHeader w then [] else [StatusOK]).
Proof.
  destruct (Write_state w p) as (_ & _ & _ & _ & ->).
  unfold sinkWriteHeaders. rewrite !omap_app. f_equal.
  destruct (rwWroteHeader w), (snd _), (rwAutoFlush w); done.
Qed.

Lemma Flush_statuses w :
  sinkWriteHeaders (rwCalls (ResponseWriter_Flush w))
  = sinkWriteHeaders (rwCalls w).
Proof.
  unfold ResponseWriter_Flush, sinkWriteHeaders. simpl.
  destruct (sinkFlusher _); rewrite !omap_app; simpl;
    by rewrite ?app_nil_r.
Qed.

Lemma Close_statuses w :
  sinkWriteHeaders (rwCalls (ResponseWriter_Close w))
  = sinkWriteHeaders (rwCalls w).
Proof.
  unfold ResponseWriter_Close, sinkWriteHeaders. simpl.
  rewrite omap_app. simpl. by rewrite app_nil_r.
Qed.

Lemma runOp_statusInvariant w o :
  statusInvariant w -> statusInvariant (runOp w o).
Proof.
  intros [Hle Hnone]. unfold statusInvariant.
  destruct o as [code|p| | |key value|key]; unfold runOp; [| | | |done..].
  - rewrite WriteHeader_calls, WriteHeader_wrote.
    split; [|done]. rewrite length_app.
    destruct (rwWroteHeader w); simpl; [lia|]. rewrite Hnone by done.
    simpl. lia.
  - rewrite Write_statuses.
    destruct (Write_state w p) as (_ & _ & -> & _ & _).
    split; [|done]. rewrite length_app.
    destruct (rwWroteHeader w); simpl; [lia|]. rewrite Hnone by done.
    simpl. lia.
  - by rewrite Flush_statuses.
  - by rewrite Close_statuses.
Qed.

Lemma runOps_statusInvariant w ops :
  statusInvariant w -> statusInvariant (runOps w ops).
Proof.
  unfold runOps. revert w.
  induction ops as [|o ops IH]; intros w Hw; simpl; [done|].
  by apply IH, runOp_statusInvariant.
Qed.
End WriteHeader.

(** C9.  The first WriteHeader of a ResponseWriter deletes the
    Content-Length header, forwards the status code to the wrapped sink
    and records that the header is sent; once the header is sent every
    WriteHeader leaves the ResponseWriter as it is.  Hence, whatever a
    handler does with a ResponseWriter after its construction, the
    WriteHeader of the wrapped sink is called at most once. *)
Theorem WriteHeader_once `{Externals} :
  (forall (w : ResponseWriter) (statusCode : Z),
      rwWroteHeader w = false ->
      rwHeader (ResponseWriter_WriteHeader w statusCode)
      = delete ContentLengthHeaderKey (rwHeader w)
      /\ rwCalls (ResponseWriter_WriteHeader w statusCode)
         = rwCalls w ++ [SinkWriteHeader statusCode]
      /\ rwWroteHeader (ResponseWriter_WriteHeader w statusCode) = true)
  /\ (forall (w : ResponseWriter) (statusCode : Z),
      rwWroteHeader w = true -> ResponseWriter_WriteHeader w statusCode = w)
  /\ (forall (w : ResponseWriter) (first next : Z),
      ResponseWriter_WriteHeader (ResponseWriter_WriteHeader w first) next
      = ResponseWriter_WriteHeader w first)
  /\ (forall (w0 : Sink) (r : Request) (level : Z) (w : ResponseWriter)
             (ops : list op),
      NewResponseWriter w0 r level = inl w ->
      (length (sinkWriteHeaders (rwCalls (runOps w ops))) <= 1)%nat).
Proof.
  split_and!.
  - intros w statusCode Hwrote. unfold ResponseWriter_WriteHeader.
    by rewrite Hwrote.
  - intros w statusCode Hwrote. unfold ResponseWriter_WriteHeader.
    by rewrite Hwrote.
  - intros w first next.
    pose proof (WriteHeader_wrote w first) as Hwrote.
    unfold ResponseWriter_WriteHeader at 1. by rewrite Hwrote.
  - intros w0 r level w ops Hnew.
    destruct (NewResponseWriter_inl w0 r level w Hnew)
      as (_ & _ & _ & _ & Hwrote & Hcalls).
    apply runOps_statusInvariant. split; rewrite Hcalls; simpl; [lia|done].
Qed.

(** C9 on the example writer: two explicit statuses around a write; the
    sink receives the first one only. *)
Lemma WriteHeader_once_witness :
  (length (sinkWriteHeaders
     (rwCalls (runOps (H := acceptingLibraries) exampleWriter
                 [OpWriteHeader 404; OpWrite [Byte.x68]; OpWriteHeader 500])))
   <= 1)%nat
  /\ rwCalls (ResponseWriter_WriteHeader exampleWriter 404)
     = [SinkWriteHeader 404].
Proof.
  split.
  - apply (proj2 (proj2 (proj2 (WriteHeader_once (H := acceptingLibraries))))
             exampleSink exampleRequest (-1) exampleWriter).
    exact NewResponseWriter_example.
  - apply (proj1 (WriteHeader_once (H := acceptingLibraries))
             exampleWriter 404).
    reflexivity.
Defined.

(** ** WriteHandler *)

(** C10.  When NewResponseWriter succeeds, WriteHandler runs the wrapped
    handler on the compressing writer and on the request from which the
    Accept-Encoding header has been deleted, the other headers and the
    body being as they were (and closes the compressing stream when the
    handler returns); a NewResponseWriter on the request the handler
    sees reports that the response will not be compressed, so nothing
    inside negotiates a second time.  When NewResponseWriter fails, the
    wrapped handler runs on the original writer and the original
    request. *)
Theorem WriteHandler_hides_AcceptEncoding `{Externals} :
  forall (next : Handler) (w : Sink) (r : Request),
    (forall cr : ResponseWriter,
        NewResponseWriter w r (-1) = inl cr ->
        let r' := Request_delHeader r AcceptEncodingHeaderKey in
        WriteHandler next w r
        = (let '(cr', r'') := ServeCompressed next cr r' in
           ServedCompressed (ResponseWriter_Close cr') r'')
        /\ reqHeader r' !! AcceptEncodingHeaderKey = None
        /\ (forall key : string,
              key <> AcceptEncodingHeaderKey ->
              reqHeader r' !! key = reqHeader r !! key)
        /\ reqBody r' = reqBody r
        /\ (forall (w2 : Sink) (level : Z),
              NewResponseWriter w2 r' level = inr ErrResponseNotCompressed))
    /\ (forall err : error,
        NewResponseWriter w r (-1) = inr err ->
        WriteHandler next w r
        = (let '(w', r') := ServeRaw next w r in ServedRaw w' r')).
Proof.
  intros next w r. split.
  - intros cr Hnew r'. split_and!.
    + unfold WriteHandler. by rewrite Hnew.
    + apply lookup_delete_eq.
    + intros key Hkey. by apply lookup_delete_ne.
    + done.
    + intros w2 level. unfold NewResponseWriter, Header_Values.
      subst r'. simpl. unfold Header_Del. by rewrite lookup_delete_eq.
  - intros err Hnew. unfold WriteHandler. by rewrite Hnew.
Qed.

(** C10 on the example request, which accepts br, and on a request
    without headers. *)
Lemma WriteHandler_hides_AcceptEncoding_witness :
  WriteHandler (H := acceptingLibraries) idleHandler exampleSink
    exampleRequest
  = ServedCompressed (ResponseWriter_Close exampleWriter)
      (Request_delHeader exampleRequest AcceptEncodingHeaderKey)
  /\ WriteHandler (H := acceptingLibraries) idleHandler exampleSink
       bareRequest
     = ServedRaw exampleSink bareRequest.
Proof.
  split.
  - apply (proj1 (WriteHandler_hides_AcceptEncoding
                    (H := acceptingLibraries) idleHandler exampleSink
                    exampleRequest) exampleWriter).
    exact NewResponseWriter_example.
  - apply (proj2 (WriteHandler_hides_AcceptEncoding
                    (H := acceptingLibraries) idleHandler exampleSink
                    bareRequest) ErrResponseNotCompressed).
    reflexivity.
Defined.

(* ===================================================================== *)
(** * Further properties of the code *)

(** ** The scanners of accept.go *)

Lemma expectTokenSlash_split s :
  s = fst (expectTokenSlash s) +:+ snd (expectTokenSlash s)
  /\ string_forall tokenByte (fst (expectTokenSlash s)) = true
  /\ startsWith tokenByte (snd (expectTokenSlash s)) = false.
Proof.
  induction s as [|b s (IH1 & IH2 & IH3)]; simpl; [done|].
  destruct (_ && _) eqn:Hb; simpl.
  - split_and!; [done..|]. unfold tokenByte. by rewrite Hb.
  - destruct (expectTokenSlash s) as [t r]. simpl in *.
    rewrite append_cons, <- IH1. split_and!; [done| |done].
    unfold tokenByte. by rewrite Hb.
Qed.

(** X1.  expectTokenSlash cuts its text at the longest prefix made of
    token bytes and slashes: the token and the rest put together give the
    text back, the token holds such bytes only, the rest does not start
    with one; and this cut is the only one with these properties. *)
Theorem expectTokenSlash_longest_prefix :
  forall s token rest : string,
    expectTokenSlash s = (token, rest)
    <-> s = token +:+ rest
        /\ string_forall tokenByte token = true
        /\ startsWith tokenByte rest = false.
Proof.
  intros s token rest. split.
  - intros Hs. pose proof (expectTokenSlash_split s) as Hsplit.
    by rewrite Hs in Hsplit.
  - intros (-> & Htok & Hrest). by apply expectTokenSlash_app.
Qed.

Lemma expectTokenSlash_longest_prefix_witness :
  expectTokenSlash "text/html;q=0.5" = ("text/html", ";q=0.5").
Proof.
  apply (proj2 (expectTokenSlash_longest_prefix
                  "text/html;q=0.5" "text/html" ";q=0.5")).
  split; [reflexivity|]. split; reflexivity.
Defined.

Lemma skipSpace_split s :
  exists sp, s = sp +:+ skipSpace s /\ spaceString sp
             /\ startsWith spaceByte (skipSpace s) = false.
Proof.
  induction s as [|b s (sp & IH1 & IH2 & IH3)].
  - by exists EmptyString.
  - simpl. destruct (_ =? 0) eqn:Hb.
    + exists EmptyString. split_and!; [done..|]. simpl.
      unfold spaceByte. by rewrite Hb.
    + exists (String b sp). rewrite append_cons, <- IH1.
      split_and!; [done| |done]. unfold spaceString in *. simpl.
      unfold spaceByte at 1. by rewrite Hb.
Qed.

(** X2.  skipSpace removes exactly the leading run of space, tab, CR and
    LF bytes: its result is the text without a prefix of such bytes and
    does not start with one; no other cut has these properties.  So the
    function changes nothing when applied a second time. *)
Theorem skipSpace_strips_leading_space :
  (forall s rest : string,
      skipSpace s = rest
      <-> exists sp, s = sp +:+ rest /\ spaceString sp
                     /\ startsWith spaceByte rest = false)
  /\ (forall s : string, skipSpace (skipSpace s) = skipSpace s).
Proof.
  split.
  - intros s rest. split.
    + intros <-. apply skipSpace_split.
    + intros (sp & -> & Hsp & Hrest).
      rewrite skipSpace_app by done. by apply skipSpace_id.
  - intros s. destruct (skipSpace_split s) as (sp & _ & _ & Hns).
    by apply skipSpace_id.
Qed.

Lemma skipSpace_strips_leading_space_witness :
  skipSpace (String " " (String (ascii_of_nat 9) "q=1 ")) = "q=1 ".
Proof.
  apply (proj2 (proj1 skipSpace_strips_leading_space
                  (String " " (String (ascii_of_nat 9) "q=1 ")) "q=1 ")).
  exists (String " " (String (ascii_of_nat 9) EmptyString)).
  split; [reflexivity|]. split; reflexivity.
Defined.

Lemma octetTypes_check (b : ascii) :
  let c := byte_val b in
  let t := octetTypes c in
  ((Z.land t isToken =? 0) || (Z.land t isSpace =? 0))
  && implb (128 <=? c) (t =? 0)
  && implb (((c <=? 31) || (c =? 127))
            && negb (c =? 9) && negb (c =? 10) && negb (c =? 13)) (t =? 0)
  = true.
Proof. destruct b as [[] [] [] [] [] [] [] []]; vm_compute; reflexivity. Qed.

(** X3.  In the table octetTypes no byte is both a token byte and a
    space byte, and the bytes outside ASCII (128 and above) and the
    control bytes (up to 31, and 127) other than tab, CR and LF have no
    type at all. *)
Theorem octetTypes_classes :
  forall b : ascii,
    (Z.land (octetTypes (byte_val b)) isToken = 0
     \/ Z.land (octetTypes (byte_val b)) isSpace = 0)
    /\ (128 <= byte_val b -> octetTypes (byte_val b) = 0)
    /\ (byte_val b <= 31 \/ byte_val b = 127 ->
        byte_val b <> 9 -> byte_val b <> 10 -> byte_val b <> 13 ->
        octetTypes (byte_val b) = 0).
Proof.
  intros b. pose proof (octetTypes_check b) as Hb. simpl in Hb.
  apply andb_true_iff in Hb as [Hb H3].
  apply andb_true_iff in Hb as [H1 H2].
  split_and!.
  - apply orb_true_iff in H1 as [H1|H1]; [left|right]; lia.
  - intros Hc. destruct (128 <=? byte_val b) eqn:E; [|lia].
    simpl in H2. lia.
  - intros Hc H9 H10 H13.
    destruct (((byte_val b <=? 31) || (byte_val b =? 127))
              && negb (byte_val b =? 9) && negb (byte_val b =? 10)
              && negb (byte_val b =? 13)) eqn:E; [simpl in H3; lia|].
    exfalso. repeat (apply andb_false_iff in E as [E|E]);
      try (apply negb_false_iff in E; lia).
    apply orb_false_iff in E as [E1 E2]. lia.
Qed.

Lemma octetTypes_classes_witness :
  octetTypes (byte_val (ascii_of_nat 200)) = 0
  /\ octetTypes (byte_val (ascii_of_nat 27)) = 0.
Proof.
  split.
  - apply (proj1 (proj2 (octetTypes_classes (ascii_of_nat 200)))).
    vm_compute. discriminate.
  - apply (proj2 (proj2 (octetTypes_classes (ascii_of_nat 27)))).
    + left. vm_compute. discriminate.
    + vm_compute. discriminate.
    + vm_compute. discriminate.
    + vm_compute. discriminate.
Defined.

(** ** parseAccept *)

Lemma parseEntry_value_token s spec r :
  parseEntry s = Some (spec, r) -> tokenString (Value spec).
Proof.
  unfold parseEntry.
  destruct (expectTokenSlash_split s) as (_ & Htok & _).
  destruct (expectTokenSlash s) as [value s1]. simpl in Htok.
  destruct (String.eqb_spec value "") as [|Hne]; [done|].
  assert (tokenString value) as Hvalue by done.
  destruct (HasPrefix (skipSpace s1) ";").
  - destruct (negb (HasPrefix _ "q=")); [done|].
    destruct (expectQuality _) as [q s2].
    destruct (Float64.ltb q Float64.zero); [done|].
    by intros [= <- _].
  - by intros [= <- _].
Qed.

Lemma parseEntries_Forall (P : acceptSpec -> Prop) fuel s specs :
  (forall s spec r, parseEntry s = Some (spec, r) -> P spec) ->
  Forall P specs -> Forall P (parseEntries fuel s specs).
Proof.
  intros HP. revert s specs.
  induction fuel as [|fuel IH]; intros s specs Hs; [done|].
  rewrite parseEntries_S.
  destruct (parseEntry s) as [[spec r]|] eqn:He; [|done].
  apply HP in He.
  assert (Forall P (specs ++ [spec])) by (apply Forall_app; auto).
  destruct r; auto.
Qed.

Lemma parseAccept_Forall (P : acceptSpec -> Prop) inp :
  (forall s spec r, parseEntry s = Some (spec, r) -> P spec) ->
  Forall P (parseAccept inp).
Proof.
  intros HP. unfold parseAccept.
  enough (forall specs, Forall P specs ->
            Forall P (fold_left (fun specs s => parseValue s specs)
                        inp specs)) as Hgen by (by apply Hgen).
  induction inp as [|s inp IH]; intros specs Hs; simpl; [done|].
  apply IH. by apply parseEntries_Forall.
Qed.

(** X4.  Every entry that parseAccept returns carries a non-empty token
    made of token bytes and slashes only: no entry has an empty value, a
    value with white space, or one with a separator other than the
    slash. *)
Theorem parseAccept_values_are_tokens :
  forall (inp : list string) (e : acceptSpec),
    e ∈ parseAccept inp ->
    string_forall tokenByte (Value e) = true /\ Value e <> EmptyString.
Proof.
  intros inp e He.
  pose proof (parseAccept_Forall (fun e => tokenString (Value e)) inp
                parseEntry_value_token) as H.
  rewrite Forall_forall in H. by apply H.
Qed.

Lemma parseAccept_values_are_tokens_witness :
  string_forall tokenByte "br" = true /\ "br" <> EmptyString.
Proof.
  apply (parseAccept_values_are_tokens ["gzip;q=0.5, br"]
           {| Value := "br"; Q := Float64.one |}).
  change (parseAccept ["gzip;q=0.5, br"])
    with [ {| Value := "gzip"; Q := S754_finite false 4503599627370496 (-53) |};
           {| Value := "br"; Q := Float64.one |} ].
  apply elem_of_cons. right. apply elem_of_cons. by left.
Defined.

Lemma parseValue_no_token s specs :
  startsWith tokenByte s = false -> parseValue s specs = specs.
Proof.
  intros Hs. rewrite parseValue_step. unfold parseEntry.
  replace (expectTokenSlash s) with (EmptyString, s); [done|].
  symmetry. apply (expectTokenSlash_app EmptyString s); done.
Qed.

(** X5.  A header value is read up to the first place where an entry
    should start and no token does: a value that is empty or starts with
    white space, a comma or any other separator gives no entry at all,
    and after a run of well-formed entries such a place (the end of the
    text, a second comma in a row, ...) ends the value with the entries
    read so far. *)
Theorem parseValue_stops_without_token :
  (forall (s : string) (specs : list acceptSpec),
      startsWith tokenByte s = false -> parseValue s specs = specs)
  /\ (forall (pre tail : string) (l : list acceptSpec),
      entries_text pre l ->
      startsWith tokenByte tail = false ->
      startsWith spaceByte tail = false ->
      parseValue (pre +:+ tail) [] = l).
Proof.
  split; [apply parseValue_no_token|].
  intros pre tail l Hpre Htok Hsp.
  rewrite (parseValue_entries pre l) by done.
  by rewrite parseValue_no_token.
Qed.

Lemma parseValue_stops_without_token_witness :
  parseValue " gzip" [] = []
  /\ parseValue "gzip, ,br" [] = [ {| Value := "gzip"; Q := Float64.one |} ].
Proof.
  split.
  - apply (proj1 parseValue_stops_without_token " gzip" []). reflexivity.
  - apply (proj2 parseValue_stops_without_token "gzip, " ",br"
             [ {| Value := "gzip"; Q := Float64.one |} ]).
    + apply (entries_cons ("gzip" +:+ "") _ " " "" []).
      * apply entry_plain; [split; [reflexivity|discriminate]|reflexivity].
      * reflexivity.
      * apply entries_nil.
    + reflexivity.
    + reflexivity.
Defined.

(** X6.  A header value made of well-formed entries separated by commas
    is parsed into exactly these entries, in the order of the text. *)
Theorem parseValue_well_formed :
  forall (pre last : string) (l : list acceptSpec) (e : acceptSpec),
    entries_text pre l -> entry_text last e ->
    parseValue (pre +:+ last) [] = l ++ [e].
Proof.
  intros pre last l e Hpre Hlast.
  rewrite (parseValue_entries pre l); [|done|].
  - rewrite parseValue_step. by rewrite (parseEntry_entry_end last e).
  - apply startsWith_token_not_space.
    rewrite <- (append_nil_r last). by apply (entry_text_head last e).
Qed.

Lemma parseValue_well_formed_witness :
  parseValue "gzip , br;q=0.5" []
  = [ {| Value := "gzip"; Q := Float64.one |} ]
    ++ [ {| Value := "br"; Q := qualityOf "0.5" |} ].
Proof.
  apply (parseValue_well_formed "gzip , "
           ("br" +:+ "" +:+ ";" +:+ "" +:+ "q=" +:+ "0.5" +:+ "")).
  - apply (entries_cons ("gzip" +:+ " ") _ " " "" []).
    + apply entry_plain; [split; [reflexivity|discriminate]|reflexivity].
    + reflexivity.
    + apply entries_nil.
  - apply entry_quality; try reflexivity.
    split; [reflexivity|discriminate].
Defined.

(** X7.  parseAccept reads the header values one after the other and
    independently: its result is the concatenation, in order, of what
    each value gives on its own, so the result on two lists of values put
    end to end is the two results put end to end. *)
Theorem parseAccept_by_value :
  (forall inp : list string,
      parseAccept inp = concat (map (fun s => parseValue s []) inp))
  /\ (forall inp1 inp2 : list string,
      parseAccept (inp1 ++ inp2) = parseAccept inp1 ++ parseAccept inp2).
Proof.
  split; [|apply parseAccept_app].
  induction inp as [|s inp IH]; [done|].
  rewrite parseAccept_cons, IH. done.
Qed.

(** ** negotiateAcceptHeader *)

Section NegotiateMore.
Import Float64 Float64Facts.

Lemma scan_result l o st :
  fold_left (negotiateStep o) l st = st
  \/ (snd (fold_left (negotiateStep o) l st) = o
      /\ exists e, e ∈ l /\ specMatches e o = true).
Proof.
  revert st. induction l as [|e l IH]; intros st; simpl; [by left|].
  assert (negotiateStep o st e = st
          \/ (snd (negotiateStep o st e) = o /\ specMatches e o = true))
    as [Hstep|[Hstep Hm]].
  { unfold negotiateStep. destruct (gtb _ _); simpl; [|by left].
    destruct (specMatches e o); simpl; [by right|by left]. }
  - rewrite Hstep. destruct (IH st) as [->|(Hsnd & e' & He' & Hm')];
      [by left|right].
    split; [done|]. exists e'. split; [by right|done].
  - right. destruct (IH (negotiateStep o st e))
      as [->|(Hsnd & e' & He' & Hm')].
    + split; [done|]. exists e. split; [left|done].
    + split; [done|]. exists e'. split; [by right|done].
Qed.

Lemma negotiateLoop_result specs offers st :
  snd (negotiateLoop specs offers st) = snd st
  \/ (snd (negotiateLoop specs offers st) ∈ offers
      /\ exists e, e ∈ specs
                   /\ specMatches e (snd (negotiateLoop specs offers st))
                      = true).
Proof.
  unfold negotiateLoop. revert st.
  induction offers as [|o offers IH]; intros st; simpl; [by left|].
  destruct (IH (fold_left (negotiateStep o) specs st))
    as [Hkeep|(Hin & e & He & Hm)].
  - rewrite Hkeep.
    destruct (scan_result specs o st) as [->|(Hsnd & e & He & Hm)];
      [by left|right].
    rewrite Hsnd. split; [left|]. by exists e.
  - right. split; [by right|]. by exists e.
Qed.

Lemma ltb_nan_r (a b : float64) : is_nan b = true -> ltb a b = false.
Proof. intros Hb. order. Qed.

Lemma ltb_irrefl (a : float64) : ltb a a = false.
Proof.
  destruct (ltb a a) eqn:E; [|done]. by rewrite (ltb_asym a a E) in E.
Qed.

(** A non-empty list of entries whose qualities are numbers has an entry
    of highest quality. *)
Lemma max_quality_exists (l : list acceptSpec) :
  l <> [] -> (forall e, e ∈ l -> is_nan (Q e) = false) ->
  exists m, m ∈ l /\ forall e, e ∈ l -> gtb (Q e) (Q m) = false.
Proof.
  induction l as [|x l IH]; intros Hne Hnum; [done|].
  destruct l as [|y l].
  - exists x. split; [left|]. intros e ->%list_elem_of_singleton.
    apply ltb_irrefl.
  - destruct IH as (m & Hm & Hmax); [done|intros e He; apply Hnum; by right|].
    destruct (gtb (Q x) (Q m)) eqn:Hx.
    + exists x. split; [left|]. intros e [->|He]%elem_of_cons.
      * apply ltb_irrefl.
      * change (ltb (Q x) (Q e) = false).
        destruct (ltb (Q x) (Q e)) eqn:Hxe; [|done].
        pose proof (ltb_trans _ _ _ Hx Hxe) as Hme.
        specialize (Hmax e He). change (ltb (Q m) (Q e) = false) in Hmax.
        congruence.
    + exists m. split; [by right|]. intros e [->|He]%elem_of_cons; auto.
Qed.

(** Either no entry with a numeric quality matches an offer, or the
    hypotheses of [negotiateLoop_selects] are met by some offer. *)
Lemma best_offer_exists (specs : list acceptSpec) (offers : list string) :
  (forall o e, o ∈ offers -> e ∈ specs -> specMatches e o = true ->
               is_nan (Q e) = true)
  \/ exists i o e,
      offers !! i = Some o /\ e ∈ specs /\ specMatches e o = true
      /\ is_nan (Q e) = false
      /\ (forall o' e', o' ∈ offers -> e' ∈ specs ->
                        specMatches e' o' = true ->
                        gtb (Q e') (Q e) = false)
      /\ (forall j o' e', (j < i)%nat -> offers !! j = Some o' ->
                          e' ∈ specs -> specMatches e' o' = true ->
                          eqb (Q e') (Q e) = false).
Proof.
  set (cand := fun e : acceptSpec =>
                 existsb (specMatches e) offers && negb (is_nan (Q e))).
  destruct (filter (fun e => cand e = true) specs) as [|c cs] eqn:Hcands.
  - left. intros o e Ho He Hm.
    destruct (is_nan (Q e)) eqn:Hnan; [done|].
    assert (e ∈ filter (fun e => cand e = true) specs) as Hin.
    { apply list_elem_of_filter. split; [|done]. unfold cand.
      rewrite Hnan, andb_true_r. apply existsb_exists.
      exists o. split; [by apply list_elem_of_In|done]. }
    rewrite Hcands in Hin. by apply elem_of_nil in Hin.
  - right.
    destruct (max_quality_exists (c :: cs)) as (m & Hm & Hmax); [done|..].
    { intros e He. rewrite <- Hcands in He.
      apply list_elem_of_filter in He as [He _]. unfold cand in He.
      apply andb_true_iff in He as [_ He]. by apply negb_true_iff. }
    rewrite <- Hcands in Hm, Hmax.
    apply list_elem_of_filter in Hm as [Hcm Hm]. unfold cand in Hcm.
    apply andb_true_iff in Hcm as [Hmo Hmnum].
    apply negb_true_iff in Hmnum.
    apply existsb_exists in Hmo as (om & Hom%list_elem_of_In & Hmm).
    assert (forall o' e', o' ∈ offers -> e' ∈ specs ->
              specMatches e' o' = true -> gtb (Q e') (Q m) = false)
      as Hmax'.
    { intros o' e' Ho' He' Hm'.
      destruct (is_nan (Q e')) eqn:Hnan.
      - unfold gtb. change (ltb (Q m) (Q e') = false). by apply ltb_nan_r.
      - apply Hmax. apply list_elem_of_filter. split; [|done]. unfold cand.
        rewrite Hnan, andb_true_r. apply existsb_exists.
        exists o'. split; [by apply list_elem_of_In|done]. }
    set (hit := fun (o' : string) (e' : acceptSpec) =>
                  specMatches e' o' && eqb (Q e') (Q m)).
    set (P := fun o' : string => existsb (hit o') specs = true).
    assert (is_Some (list_find P offers)) as [[i o1] Hfind].
    { apply (list_find_elem_of P offers om); [done|].
      apply existsb_exists. exists m. split; [by apply list_elem_of_In|].
      unfold hit. by rewrite Hmm, eqb_refl. }
    apply list_find_Some in Hfind as (Hi & Hhit & Hleast).
    apply existsb_exists in Hhit as (e1 & He1%list_elem_of_In & Hhit).
    apply andb_true_iff in Hhit as [Hm1 Heq1].
    exists i, o1, e1. split_and!; [done..|by eapply eqb_number| |].
    + intros o' e' Ho' He' Hm'. change (ltb (Q e1) (Q e') = false).
      rewrite (eqb_ltb_l (Q e1) (Q m) (Q e') Heq1). by eapply Hmax'.
    + intros j o' e' Hlt Hj He' Hm'.
      destruct (eqb (Q e') (Q e1)) eqn:Heq; [|done].
      destruct (Hleast j o' Hj Hlt). apply existsb_exists.
      exists e'. split; [by apply list_elem_of_In|].
      unfold hit. rewrite Hm'. simpl.
      by rewrite (eqb_eqb_l (Q e') (Q e1) (Q m) Heq).
Qed.

(** The outcome depends on the entries as a set only. *)
Lemma negotiate_same_entries (specs specs' : list acceptSpec)
  (offers : list string) (st : float64 * string) :
  (forall e, e ∈ specs -> ltb (Q e) zero = false) ->
  (forall e, e ∈ specs <-> e ∈ specs') ->
  fst st = minus_one ->
  snd (negotiateLoop specs offers st) = snd (negotiateLoop specs' offers st)
  /\ eqb (fst (negotiateLoop specs offers st)) zero
     = eqb (fst (negotiateLoop specs' offers st)) zero.
Proof.
  intros Hnonneg Hsame Hst.
  destruct (best_offer_exists specs offers)
    as [Hnan|(i & o & e & Hi & He & Hm & Hnum & Hmax & Hfirst)].
  - rewrite !negotiateLoop_keep; [done|..].
    + intros o e Ho He Hm. apply ltb_nan_r. apply (Hnan o e); [done| |done].
      by apply Hsame.
    + intros o e Ho He Hm. apply ltb_nan_r. by apply (Hnan o e).
  - destruct (negotiateLoop_selects specs offers st i o e)
      as (q & -> & Hq); try done.
    destruct (negotiateLoop_selects specs' offers st i o e)
      as (q' & -> & Hq'); try done.
    + intros e' He'. apply Hnonneg. by apply Hsame.
    + by apply Hsame.
    + intros o' e' Ho' He'. apply Hmax; [done|]. by apply Hsame.
    + intros j o' e' Hlt Hj He'. apply (Hfirst j o'); [done..|].
      by apply Hsame.
    + simpl. split; [done|].
      by rewrite (eqb_eqb_l q (Q e) zero Hq), (eqb_eqb_l q' (Q e) zero Hq').
Qed.
End NegotiateMore.

(** X8.  Whatever the header, negotiateAcceptHeader returns the empty
    identifier, the fallback (identity when the fallback given is empty),
    or one of the offers; and it returns an offer only when some parsed
    entry names that offer or is the wildcard.  It never returns a token
    of the header that is not offered. *)
Theorem negotiateAcceptHeader_result :
  forall (inp offers : list string) (fallback : string),
    let r := negotiateAcceptHeader inp offers fallback in
    r = EmptyString
    \/ r = (if String.eqb fallback "" then IDENTITY else fallback)
    \/ (r ∈ offers
        /\ exists e, e ∈ parseAccept inp /\ specMatches e r = true).
Proof.
  intros inp offers fallback r. subst r.
  rewrite negotiateAcceptHeader_unfold. simpl.
  destruct (Float64.eqb _ Float64.zero); [by left|right].
  destruct (negotiateLoop_result (parseAccept inp) offers
              (Float64.minus_one,
               if String.eqb fallback "" then IDENTITY else fallback))
    as [->|Hoffer]; [by left|by right].
Qed.

(** X9.  The outcome of the negotiation does not depend on the order in
    which the header lists its entries, nor on repetitions: two headers
    that parse to the same set of entries give the same result against
    the same offers.  In particular the header values may be given in
    any order. *)
Theorem negotiateAcceptHeader_header_order :
  (forall (inp inp' offers : list string) (fallback : string),
      (forall e, e ∈ parseAccept inp <-> e ∈ parseAccept inp') ->
      negotiateAcceptHeader inp offers fallback
      = negotiateAcceptHeader inp' offers fallback)
  /\ (forall (inp inp' offers : list string) (fallback : string),
      Permutation inp inp' ->
      negotiateAcceptHeader inp offers fallback
      = negotiateAcceptHeader inp' offers fallback).
Proof.
  assert (forall (inp inp' offers : list string) (fallback : string),
      (forall e, e ∈ parseAccept inp <-> e ∈ parseAccept inp') ->
      negotiateAcceptHeader inp offers fallback
      = negotiateAcceptHeader inp' offers fallback) as Hset.
  { intros inp inp' offers fallback Hsame.
    rewrite !negotiateAcceptHeader_unfold. simpl.
    destruct (negotiate_same_entries (parseAccept inp) (parseAccept inp')
                offers
                (Float64.minus_one,
                 if String.eqb fallback "" then IDENTITY else fallback))
      as [-> ->]; try done.
    intros e. apply parseAccept_nonneg. }
  split; [exact Hset|].
  intros inp inp' offers fallback Hperm. apply Hset.
  assert (forall l : list string,
            parseAccept l = concat (map (fun s => parseValue s []) l)) as Hcat.
  { induction l as [|s l IH]; [done|]. by rewrite parseAccept_cons, IH. }
  intros e. rewrite !Hcat, !list_elem_of_In, !in_concat.
  split; intros (x & Hx & He); exists x; (split; [|done]);
    apply in_map_iff in Hx as (s & <- & Hs); apply in_map_iff;
    exists s; (split; [done|]).
  - by eapply Permutation_in.
  - eapply Permutation_in; [symmetry|]; done.
Qed.

Lemma negotiateAcceptHeader_header_order_witness :
  negotiateAcceptHeader ["gzip;q=0.5"; "br"] ["gzip"; "br"] "identity"
  = negotiateAcceptHeader ["br"; "gzip;q=0.5"] ["gzip"; "br"] "identity".
Proof.
  apply (proj2 negotiateAcceptHeader_header_order).
  apply perm_swap.
Defined.

(** ** expectQuality on qualities of at most three fraction digits *)

#[global] Instance spec_float_eq_dec : EqDecision spec_float.
Proof. solve_decision. Defined.

Lemma wrap_small z : - 2 ^ 63 <= z < 2 ^ 63 -> Int.wrap z = z.
Proof.
  intros Hz. unfold Int.wrap, Int.size.
  change (2 ^ (64 - 1)) with (2 ^ 63). change (2 ^ 64) with (2 * 2 ^ 63).
  rewrite Z.mod_small; lia.
Qed.

Lemma digitByte_range b :
  digitByte b = true -> 0 <= byte_val b - byte_val "0" <= 9.
Proof.
  unfold digitByte. intros Hb%negb_true_iff.
  apply orb_false_iff in Hb as [H1 H2].
  change (byte_val "0") with 48 in *. change (byte_val "9") with 57 in *.
  lia.
Qed.

(** Within the range of int the digit loop computes the decimal number
    and the power of ten without wrapping. *)
Lemma qualityDigits_exact (k : nat) : forall ds n d,
  string_forall digitByte ds = true -> (String.length ds <= k)%nat ->
  0 <= n -> n * 10 ^ Z.of_nat k + 10 ^ Z.of_nat k <= 10 ^ 18 ->
  0 < d -> d * 10 ^ Z.of_nat k <= 10 ^ 18 ->
  qualityDigits ds n d
  = (decimalOf ds n, d * 10 ^ Z.of_nat (String.length ds), EmptyString).
Proof.
  induction k as [|k IH]; intros ds n d Hds Hlen Hn Hnb Hd Hdb.
  - destruct ds; [|simpl in Hlen; lia]. simpl. f_equal. f_equal. lia.
  - destruct ds as [|b ds]; [simpl; f_equal; f_equal; lia|].
    simpl in Hds, Hlen. apply andb_true_iff in Hds as [Hb Hds].
    pose proof (digitByte_range b Hb) as Hrange.
    assert (0 < 10 ^ Z.of_nat k) as Hpow by (apply Z.pow_pos_nonneg; lia).
    replace (10 ^ Z.of_nat (S k)) with (10 * 10 ^ Z.of_nat k) in *
      by (rewrite Nat2Z.inj_succ, Z.pow_succ_r; lia).
    assert (10 ^ 18 < 2 ^ 63) as Hmax by reflexivity.
    cbn [qualityDigits decimalOf String.length].
    unfold digitByte in Hb. apply negb_true_iff in Hb. rewrite Hb.
    unfold Int.sub, Int.add, Int.mul.
    rewrite (wrap_small (n * 10)) by nia.
    rewrite (wrap_small (n * 10 + byte_val b))
      by (change (byte_val "0") with 48 in *; nia).
    rewrite (wrap_small (n * 10 + byte_val b - byte_val "0")) by nia.
    rewrite (wrap_small (d * 10)) by nia.
    rewrite IH; [|done|lia|nia|nia|nia|nia].
    f_equal. f_equal; [f_equal; lia|].
    rewrite Nat2Z.inj_succ, Z.pow_succ_r by lia. lia.
Qed.

Lemma decimalOf_bound ds : forall acc,
  string_forall digitByte ds = true -> 0 <= acc ->
  0 <= decimalOf ds acc
  /\ decimalOf ds acc < (acc + 1) * 10 ^ Z.of_nat (String.length ds).
Proof.
  induction ds as [|b ds IH]; intros acc Hds Hacc; simpl in *; [lia|].
  apply andb_true_iff in Hds as [Hb Hds].
  pose proof (digitByte_range b Hb) as Hrange.
  destruct (IH (acc * 10 + (byte_val b - byte_val "0")) Hds) as [H1 H2];
    [lia|].
  assert (0 < 10 ^ Z.of_nat (String.length ds)) as Hpow
    by (apply Z.pow_pos_nonneg; lia).
  split; [done|].
  replace (10 ^ Z.of_nat (S (String.length ds)))
    with (10 * 10 ^ Z.of_nat (String.length ds))
    by (rewrite Nat2Z.inj_succ, Z.pow_succ_r; lia).
  nia.
Qed.

(** The weight read for the leading digit [a] and the fraction of [f]
    thousandths. *)
Definition milliWeight (a f : Z) : float64 :=
  Float64.add (Float64.of_int a)
    (Float64.div (Float64.of_int f) (Float64.of_int 1000)).

Definition gridWeight (m : Z) : float64 :=
  milliWeight (m / 1000) (m mod 1000).

Lemma check_range (P : Z -> bool) (n : nat) :
  forallb P (seqZ 0 (Z.of_nat n)) = true ->
  forall m, 0 <= m < Z.of_nat n -> P m = true.
Proof.
  intros Hall m Hm. rewrite forallb_forall in Hall.
  apply Hall, list_elem_of_In, elem_of_seqZ. lia.
Qed.

(** Fractions of one, two and three digits give the same quotient as
    the same value written in thousandths. *)
Lemma div_thousandths (k n : Z) :
  0 <= k <= 3 -> 0 <= n < 10 ^ k ->
  Float64.div (Float64.of_int n) (Float64.of_int (10 ^ k))
  = Float64.div (Float64.of_int (n * 10 ^ (3 - k))) (Float64.of_int 1000).
Proof.
  intros Hk Hn.
  assert (forallb (fun k =>
            forallb (fun n =>
              bool_decide
                (Float64.div (Float64.of_int n) (Float64.of_int (10 ^ k))
                 = Float64.div (Float64.of_int (n * 10 ^ (3 - k)))
                     (Float64.of_int 1000)))
              (seqZ 0 (Z.of_nat (Z.to_nat (10 ^ k)))))
            (seqZ 0 (Z.of_nat 4)) = true) as Hall
    by (vm_compute; reflexivity).
  pose proof (check_range _ 4 Hall k ltac:(lia)) as Hrow. simpl in Hrow.
  pose proof (check_range _ _ Hrow n ltac:(lia)) as Hcell. simpl in Hcell.
  by apply bool_decide_eq_true in Hcell.
Qed.

Lemma gridWeight_step (m : Z) :
  0 <= m < 1999 ->
  Float64.ltb (gridWeight m) (gridWeight (m + 1)) = true.
Proof.
  intros Hm.
  assert (forallb (fun m => Float64.ltb (gridWeight m) (gridWeight (m + 1)))
            (seqZ 0 (Z.of_nat 1999)) = true) as Hall
    by (vm_compute; reflexivity).
  exact (check_range _ 1999 Hall m ltac:(lia)).
Qed.

Lemma gridWeight_increasing (m m' : Z) :
  0 <= m -> m < m' -> m' < 2000 ->
  Float64.ltb (gridWeight m) (gridWeight m') = true.
Proof.
  intros Hm Hlt Hm'.
  replace m' with (m + 1 + Z.of_nat (Z.to_nat (m' - m - 1))) in * by lia.
  induction (Z.to_nat (m' - m - 1)) as [|j IH].
  - rewrite Z.add_0_r. apply gridWeight_step. lia.
  - eapply Float64Facts.ltb_trans; [apply IH; lia|].
    replace (m + 1 + Z.of_nat (S j)) with (m + 1 + Z.of_nat j + 1) by lia.
    apply gridWeight_step. lia.
Qed.

Lemma gridWeight_order (m m' : Z) :
  0 <= m < 2000 -> 0 <= m' < 2000 ->
  Float64.ltb (gridWeight m) (gridWeight m') = (m <? m')
  /\ Float64.eqb (gridWeight m) (gridWeight m') = (m =? m').
Proof.
  intros Hm Hm'.
  assert (Float64.is_nan (gridWeight m) = false) as Hnum.
  { destruct (Z.eq_dec m 0) as [->|Hne]; [reflexivity|].
    apply (Float64Facts.ltb_number_r (gridWeight 0)).
    apply gridWeight_increasing; lia. }
  destruct (Z.lt_trichotomy m m') as [Hlt|[<-|Hgt]].
  - pose proof (gridWeight_increasing m m' ltac:(lia) Hlt ltac:(lia)) as H.
    rewrite H.
    destruct (Float64.eqb (gridWeight m) (gridWeight m')) eqn:E.
    + apply Float64Facts.eqb_not_ltb in E. congruence.
    + split; symmetry; [by apply Z.ltb_lt|apply Z.eqb_neq; lia].
  - rewrite Float64Facts.eqb_refl by done.
    assert (Float64.ltb (gridWeight m) (gridWeight m) = false) as ->.
    { destruct (Float64.ltb (gridWeight m) (gridWeight m)) eqn:E; [|done].
      by rewrite (Float64Facts.ltb_asym _ _ E) in E. }
    split; symmetry; [apply Z.ltb_irrefl|apply Z.eqb_refl].
  - pose proof (gridWeight_increasing m' m ltac:(lia) Hgt ltac:(lia)) as H.
    rewrite (Float64Facts.ltb_asym _ _ H).
    destruct (Float64.eqb (gridWeight m) (gridWeight m')) eqn:E.
    + rewrite Float64Facts.eqb_sym in E.
      apply Float64Facts.eqb_not_ltb in E. congruence.
    + split; symmetry; [apply Z.ltb_ge; lia|apply Z.eqb_neq; lia].
Qed.

Lemma qualityText_cases qt :
  qualityText qt = true ->
  exists b r, qt = String b r
    /\ (byte_val b - byte_val "0" = 0 \/ byte_val b - byte_val "0" = 1)
    /\ (Ascii.eqb b "0" = true \/ Ascii.eqb b "1" = true)
    /\ (r = EmptyString
        \/ exists ds, r = String "." ds /\ string_forall digitByte ds = true).
Proof.
  destruct qt as [|b r]; simpl; [done|].
  intros [Hb Hr]%andb_true_iff. exists b, r. split; [done|].
  split_and!.
  - apply orb_true_iff in Hb as [->%Ascii.eqb_eq| ->%Ascii.eqb_eq];
      [by left|by right].
  - by apply orb_true_iff.
  - destruct r as [|c ds]; [by left|right].
    apply andb_true_iff in Hr as [->%Ascii.eqb_eq Hds]. by exists ds.
Qed.

(** The weight of a quality text of at most three fraction digits is the
    weight of its value in thousandths. *)
Lemma qualityOf_gridWeight qt :
  qualityText qt = true -> (String.length qt <= 5)%nat ->
  0 <= thousandths qt < 2000
  /\ qualityOf qt = gridWeight (thousandths qt).
Proof.
  intros Hqt Hlen.
  destruct (qualityText_cases qt Hqt) as (b & r & -> & Hlead & Hb & Hr).
  assert (forall q0,
            fst (expectQuality (String b r)) = fst (expectFraction q0 r)
            \/ Float64.of_int (byte_val b - byte_val "0") <> q0) as Hfst.
  { intros q0. unfold expectQuality.
    destruct Hb as [Hb|Hb].
    - rewrite Hb. apply Ascii.eqb_eq in Hb as ->.
      destruct (decide (Float64.zero = q0)) as [<-|]; [by left|by right].
    - destruct (Ascii.eqb b "0") eqn:Hb0.
      + apply Ascii.eqb_eq in Hb0 as ->. done.
      + rewrite Hb. apply Ascii.eqb_eq in Hb as ->.
        destruct (decide (Float64.one = q0)) as [<-|]; [by left|by right]. }
  destruct (Hfst (Float64.of_int (byte_val b - byte_val "0")))
    as [Hq|]; [|done].
  unfold qualityOf. rewrite Hq. clear Hfst Hq.
  set (a := byte_val b - byte_val "0") in *.
  destruct Hr as [->|(ds & -> & Hds)].
  - cbn [thousandths]. fold a. rewrite Z.add_0_r.
    split; [lia|]. unfold expectFraction. simpl.
    destruct Hlead as [->| ->]; reflexivity.
  - simpl in Hlen.
    assert (String.length ds <= 3)%nat as Hlen3 by lia.
    destruct (decimalOf_bound ds 0 Hds ltac:(lia)) as [Hn0 Hn1].
    set (k := Z.of_nat (String.length ds)) in *.
    assert (0 <= k <= 3) as Hk by lia.
    assert (0 <= decimalOf ds 0 * 10 ^ (3 - k) < 1000) as Hfrac.
    { assert (10 ^ k * 10 ^ (3 - k) = 1000) as Hpow
        by (rewrite <- Z.pow_add_r by lia; by replace (k + (3 - k)) with 3
              by lia).
      assert (0 < 10 ^ (3 - k)) by (apply Z.pow_pos_nonneg; lia).
      nia. }
    cbn [thousandths]. fold a. fold k.
    split; [lia|].
    unfold expectFraction. simpl. rewrite string_drop_cons, string_drop_0.
    rewrite (qualityDigits_exact 3 ds 0 1) by (done || lia).
    fold k. rewrite Z.mul_1_l.
    rewrite div_thousandths by lia.
    unfold gridWeight, milliWeight.
    set (f := decimalOf ds 0 * 10 ^ (3 - k)) in *.
    replace ((a * 1000 + f) / 1000) with a
      by (apply (Z.div_unique _ 1000 a f); lia).
    replace ((a * 1000 + f) mod 1000) with f
      by (apply (Z.mod_unique _ 1000 a f); lia).
    done.
Qed.

Lemma gridWeight_unit (m : Z) :
  0 <= m <= 1000 -> inUnitInterval (gridWeight m) = true.
Proof.
  intros Hm.
  assert (forallb (fun m => inUnitInterval (gridWeight m))
            (seqZ 0 (Z.of_nat 1001)) = true) as Hall
    by (vm_compute; reflexivity).
  exact (check_range _ 1001 Hall m ltac:(lia)).
Qed.

(** X10.  For quality texts of the form of RFC 7231 (0 or 1, then at
    most three fraction digits) the floating-point weight is faithful to
    the decimal value: one weight is below, or equal to, another exactly
    when the decimal values are, so no rounding reorders or merges such
    preferences; and a value of at most 1.000 gives a weight inside the
    interval from 0.0 to 1.0. *)
Theorem expectQuality_exact_for_three_digits :
  forall qt qt' : string,
    qualityText qt = true -> qualityText qt' = true ->
    (String.length qt <= 5)%nat -> (String.length qt' <= 5)%nat ->
    Float64.ltb (qualityOf qt) (qualityOf qt')
    = (thousandths qt <? thousandths qt')
    /\ Float64.eqb (qualityOf qt) (qualityOf qt')
       = (thousandths qt =? thousandths qt')
    /\ (thousandths qt <= 1000 -> inUnitInterval (qualityOf qt) = true).
Proof.
  intros qt qt' Hqt Hqt' Hlen Hlen'.
  destruct (qualityOf_gridWeight qt Hqt Hlen) as [Hm ->].
  destruct (qualityOf_gridWeight qt' Hqt' Hlen') as [Hm' ->].
  destruct (gridWeight_order _ _ Hm Hm') as [Hlt Heq].
  split_and!; [done..|].
  intros Hle. apply gridWeight_unit. lia.
Qed.

Lemma expectQuality_exact_for_three_digits_witness :
  Float64.ltb (qualityOf "0.8") (qualityOf "0.75") = false
  /\ Float64.eqb (qualityOf "0.5") (qualityOf "0.500") = true
  /\ inUnitInterval (qualityOf "0.999") = true.
Proof.
  split; [|split].
  - apply (proj1 (expectQuality_exact_for_three_digits "0.8" "0.75"
                    eq_refl eq_refl ltac:(simpl; lia) ltac:(simpl; lia))).
  - apply (proj1 (proj2 (expectQuality_exact_for_three_digits "0.5" "0.500"
                    eq_refl eq_refl ltac:(simpl; lia) ltac:(simpl; lia)))).
  - apply (proj2 (proj2 (expectQuality_exact_for_three_digits "0.999" "0"
                    eq_refl eq_refl ltac:(simpl; lia) ltac:(simpl; lia)))).
    vm_compute. discriminate.
Defined.

(** ** NewResponseWriter and AddCompressHeaders *)

Definition offered : list string := [GZIP; DEFLATE; BROTLI; SNAPPY; S2].

Lemma negotiate_no_match inp offers fallback :
  (forall o e, o ∈ offers -> e ∈ parseAccept inp ->
               specMatches e o = false) ->
  negotiateAcceptHeader inp offers fallback
  = if String.eqb fallback "" then IDENTITY else fallback.
Proof.
  intros Hnone. rewrite negotiateAcceptHeader_unfold.
  rewrite negotiateLoop_keep; [done|].
  intros o e Ho He Hm. by rewrite (Hnone o e Ho He) in Hm.
Qed.

(** X11.  The errors of NewResponseWriter.  Without any Accept-Encoding
    value it returns ErrResponseNotCompressed.  With values none of whose
    entries names one of the five codecs or is the wildcard (identity
    alone, an unknown codec, ...) the negotiation falls back to identity,
    which NewWriter refuses: the error is ErrNotSupportedCompression.
    Every error is one of: ErrResponseNotCompressed,
    ErrNotSupportedCompression, ErrNotSupportedCompression wrapped with
    an empty text (the rejected case: the encoding printed in the message
    is the empty one), or the error by which the gzip or flate
    constructor refuses the level. *)
Theorem NewResponseWriter_errors `{Externals} :
  forall (w : Sink) (r : Request) (level : Z),
    (Header_Values (reqHeader r) AcceptEncodingHeaderKey = [] ->
     NewResponseWriter w r level = inr ErrResponseNotCompressed)
    /\ (Header_Values (reqHeader r) AcceptEncodingHeaderKey <> [] ->
        (forall o e,
            o ∈ offered ->
            e ∈ parseAccept
                  (Header_Values (reqHeader r) AcceptEncodingHeaderKey) ->
            specMatches e o = false) ->
        NewResponseWriter w r level = inr ErrNotSupportedCompression)
    /\ (forall err : error,
        NewResponseWriter w r level = inr err ->
        err = ErrResponseNotCompressed
        \/ err = ErrNotSupportedCompression
        \/ err = ErrWrap ErrNotSupportedCompression EmptyString
        \/ gzip_NewWriterLevel level = Some err
        \/ flate_NewWriter level = Some err).
Proof.
  intros w r level. split_and!.
  - intros Hnone. unfold NewResponseWriter. by rewrite Hnone.
  - intros Hsome Hnone. unfold NewResponseWriter.
    destruct (Header_Values _ _) as [|v vs] eqn:Hv; [done|]. simpl length.
    cbn [Nat.eqb]. fold offered. rewrite negotiate_no_match by done.
    reflexivity.
  - intros err. unfold NewResponseWriter.
    destruct (length _ =? 0)%nat; [intros [= <-]; by left|].
    set (encoding := negotiateAcceptHeader _ _ _).
    destruct (String.eqb_spec encoding "") as [->|_];
      [intros [= <-]; auto|].
    unfold NewWriter.
    destruct (String.eqb_spec encoding GZIP) as [->|_].
    { rewrite andb_false_r.
      destruct (gzip_NewWriterLevel level) eqn:E; [|done].
      intros [= <-]. auto. }
    destruct (String.eqb_spec encoding DEFLATE) as [->|_].
    { rewrite andb_false_r.
      destruct (flate_NewWriter level) eqn:E; [|done].
      intros [= <-]. auto. }
    destruct (String.eqb encoding BROTLI); [done|].
    destruct (String.eqb encoding SNAPPY); [done|].
    destruct (String.eqb encoding S2); [done|].
    intros [= <-]. auto.
Qed.

Lemma NewResponseWriter_errors_witness :
  NewResponseWriter (H := acceptingLibraries) exampleSink bareRequest 3
  = inr ErrResponseNotCompressed
  /\ NewResponseWriter (H := acceptingLibraries) exampleSink
       {| reqHeader := {[ AcceptEncodingHeaderKey := ["identity"] ]};
          reqBody := None |} 3
     = inr ErrNotSupportedCompression.
Proof.
  split.
  - apply (proj1 (NewResponseWriter_errors (H := acceptingLibraries)
                    exampleSink bareRequest 3)).
    reflexivity.
  - apply (proj1 (proj2 (NewResponseWriter_errors (H := acceptingLibraries)
                    exampleSink
                    {| reqHeader :=
                         {[ AcceptEncodingHeaderKey := ["identity"] ]};
                       reqBody := None |} 3))).
    + vm_compute. discriminate.
    + intros o e Ho He.
      change (parseAccept _)
        with [ {| Value := "identity"; Q := Float64.one |} ] in He.
      apply elem_of_cons in He as [->|He]; [|by apply elem_of_nil in He].
      unfold offered in Ho.
      repeat (apply elem_of_cons in Ho as [->|Ho]; [reflexivity|]).
      by apply elem_of_nil in Ho.
Defined.

(** X12.  A ResponseWriter is consistent with what it reports: its
    compressing stream is the codec named by Encoding built with Level,
    Level being 6 when br was negotiated and the level asked for was -1
    and the level asked for in every other case, and the optional
    interfaces Pusher, CloseNotifier and Hijacker are kept exactly when
    the wrapped sink has them. *)
Theorem NewResponseWriter_consistent `{Externals} :
  forall (w : Sink) (r : Request) (level : Z) (rw : ResponseWriter),
    NewResponseWriter w r level = inl rw ->
    rwWriter rw = codecOf (rwEncoding rw) (rwLevel rw)
    /\ rwLevel rw
       = (if (level =? -1) && String.eqb (rwEncoding rw) BROTLI
          then 6 else level)
    /\ rwPusher rw = sinkPusher w
    /\ rwCloseNotifier rw = sinkCloseNotifier w
    /\ rwHijacker rw = sinkHijacker w.
Proof.
  intros w r level rw. unfold NewResponseWriter.
  destruct (length _ =? 0)%nat; [done|].
  destruct (String.eqb _ ""); [done|].
  set (encoding := negotiateAcceptHeader _ _ _).
  destruct (NewWriter _ _) as [cw|err] eqn:Hnew; [|done].
  intros [= <-]. simpl. split_and!; try done.
  unfold NewWriter in Hnew. unfold codecOf.
  destruct (String.eqb encoding GZIP).
  { destruct (gzip_NewWriterLevel _); [done|]. by injection Hnew as <-. }
  destruct (String.eqb encoding DEFLATE).
  { destruct (flate_NewWriter _); [done|]. by injection Hnew as <-. }
  destruct (String.eqb encoding BROTLI).
  { injection Hnew as <-. rewrite andb_true_r.
    destruct (level =? -1) eqn:E; [done|]. by rewrite E. }
  destruct (String.eqb encoding SNAPPY); [by injection Hnew as <-|].
  destruct (String.eqb encoding S2); [by injection Hnew as <-|done].
Qed.

Lemma NewResponseWriter_consistent_witness :
  rwWriter exampleWriter = codecOf BROTLI 6
  /\ rwLevel exampleWriter = 6.
Proof.
  destruct (NewResponseWriter_consistent (H := acceptingLibraries)
              exampleSink exampleRequest (-1) exampleWriter
              NewResponseWriter_example) as (Hcw & Hlevel & _).
  split; [exact Hcw|exact Hlevel].
Defined.

(** X13.  AddCompressHeaders replaces what the map held under Vary and
    Content-Encoding: whatever values the handler had put there (another
    Vary, several values) are gone, each key holds exactly one value
    afterwards; and adding the same headers twice is the same as adding
    them once, while a later encoding overrides an earlier one. *)
Theorem AddCompressHeaders_overwrites :
  forall (h : Header) (encoding encoding' : string),
    AddCompressHeaders h encoding !! VaryHeaderKey
    = Some [AcceptEncodingHeaderKey]
    /\ AddCompressHeaders h encoding !! ContentEncodingHeaderKey
       = Some [encoding]
    /\ AddCompressHeaders (AddCompressHeaders h encoding') encoding
       = AddCompressHeaders h encoding.
Proof.
  intros h encoding encoding'. unfold AddCompressHeaders, Header_Set.
  split_and!.
  - rewrite lookup_insert_ne by done. by rewrite lookup_insert_eq.
  - by rewrite lookup_insert_eq.
  - apply map_eq. intros key.
    destruct (decide (key = ContentEncodingHeaderKey)) as [->|Hce];
      [by rewrite !lookup_insert_eq|].
    rewrite !(lookup_insert_ne _ ContentEncodingHeaderKey) by done.
    destruct (decide (key = VaryHeaderKey)) as [->|Hv];
      [by rewrite !lookup_insert_eq|].
    by rewrite !lookup_insert_ne by done.
Qed.

(** ** The order of the calls made by a ResponseWriter *)

Section CallOrder.
Context `{Externals}.

Definition bodyAfterStatus (calls : list call) : Prop :=
  forall i p, calls !! i = Some (StreamWrite p) ->
    exists j code, (j < i)%nat /\ calls !! j = Some (SinkWriteHeader code).

Definition hasStatus (calls : list call) : Prop :=
  exists j code, calls !! j = Some (SinkWriteHeader code).

Definition noBody (calls : list call) : Prop :=
  forall i p, calls !! i <> Some (StreamWrite p).

Definition orderInvariant (w : ResponseWriter) : Prop :=
  bodyAfterStatus (rwCalls w)
  /\ (rwWroteHeader w = true -> hasStatus (rwCalls w))
  /\ (rwWroteHeader w = false -> noBody (rwCalls w)).

Lemma bodyAfterStatus_app calls extra :
  bodyAfterStatus calls -> noBody extra -> bodyAfterStatus (calls ++ extra).
Proof.
  intros Hcalls Hextra i p [Hi|[_ Hi]]%lookup_app_Some.
  - destruct (Hcalls i p Hi) as (j & code & Hj & Hjl).
    exists j, code. split; [done|]. by apply lookup_app_l_Some.
  - by destruct (Hextra _ _ Hi).
Qed.

Lemma hasStatus_app calls extra :
  hasStatus calls -> hasStatus (calls ++ extra).
Proof.
  intros (j & code & Hj). exists j, code. by apply lookup_app_l_Some.
Qed.

Lemma noBody_app calls extra :
  noBody calls -> noBody extra -> noBody (calls ++ extra).
Proof.
  intros Hcalls Hextra i p [Hi|[_ Hi]]%lookup_app_Some.
  - by destruct (Hcalls _ _ Hi).
  - by destruct (Hextra _ _ Hi).
Qed.

Lemma noBody_small (extra : list call) :
  Forall (fun c => forall p, c <> StreamWrite p) extra -> noBody extra.
Proof.
  intros Hall i p Hi. rewrite Forall_lookup in Hall.
  by destruct (Hall i _ Hi p).
Qed.

Lemma bodyAfterStatus_write calls p tail :
  bodyAfterStatus calls -> hasStatus calls -> noBody tail ->
  bodyAfterStatus (calls ++ StreamWrite p :: tail).
Proof.
  intros Hcalls (j & code & Hj) Htail i q [Hi|[Hlen Hi]]%lookup_app_Some.
  - destruct (Hcalls i q Hi) as (j' & code' & Hj' & Hjl).
    exists j', code'. split; [done|]. by apply lookup_app_l_Some.
  - exists j, code. split.
    + apply lookup_lt_Some in Hj. lia.
    + by apply lookup_app_l_Some.
Qed.

Lemma WriteHeader_orderInvariant w statusCode :
  orderInvariant w ->
  orderInvariant (ResponseWriter_WriteHeader w statusCode)
  /\ hasStatus (rwCalls (ResponseWriter_WriteHeader w statusCode))
     \/ rwWroteHeader w = true
        /\ ResponseWriter_WriteHeader w statusCode = w.
Proof.
  intros (Hbody & Hsome & Hnone). unfold ResponseWriter_WriteHeader.
  destruct (rwWroteHeader w) eqn:Hwrote; simpl; [by right|left].
  assert (hasStatus (rwCalls w ++ [SinkWriteHeader statusCode])) as Hst.
  { exists (length (rwCalls w)), statusCode.
    by rewrite lookup_app_r, Nat.sub_diag by lia. }
  split; [|done]. split_and!; simpl; [|done..].
  apply bodyAfterStatus_app; [done|]. apply noBody_small.
  by repeat constructor.
Qed.

Lemma runOp_orderInvariant w o :
  orderInvariant w -> orderInvariant (runOp w o).
Proof.
  intros Hw. pose proof Hw as (Hbody & Hsome & Hnone).
  destruct o as [code|p| | |key value|key]; unfold runOp; [| | | |done..].
  - destruct (WriteHeader_orderInvariant w code Hw) as [[? _]|[_ ->]]; done.
  - destruct (Write_state w p) as (_ & _ & Hwr & _ & Hcalls).
    unfold orderInvariant. rewrite Hwr, Hcalls.
    assert (noBody (match
                (stream_Write (rwWriter w)
                   (rwCalls w ++ (if rwWroteHeader w then []
                                  else [SinkWriteHeader StatusOK])) p).2
              with
              | Some _ => []
              | None => if rwAutoFlush w then [StreamFlush] else []
              end)) as Htail.
    { apply noBody_small. destruct (snd _); [constructor|].
      destruct (rwAutoFlush w); by repeat constructor. }
    assert (bodyAfterStatus
              (rwCalls w ++ (if rwWroteHeader w then []
                             else [SinkWriteHeader StatusOK]))
            /\ hasStatus
                 (rwCalls w ++ (if rwWroteHeader w then []
                                else [SinkWriteHeader StatusOK])))
      as [Hb Hs].
    { destruct (rwWroteHeader w) eqn:Hwrote.
      - rewrite app_nil_r. auto.
      - split.
        + apply bodyAfterStatus_app; [done|]. apply noBody_small.
          by repeat constructor.
        + exists (length (rwCalls w)), StatusOK.
          by rewrite lookup_app_r, Nat.sub_diag by lia. }
    rewrite app_assoc. split_and!; [|intros _|done].
    + by apply bodyAfterStatus_write.
    + by apply hasStatus_app.
  - unfold ResponseWriter_Flush, orderInvariant. simpl.
    assert (noBody [StreamFlush] /\ noBody [StreamFlush; SinkFlush])
      as [H1 H2] by (split; apply noBody_small; by repeat constructor).
    destruct (sinkFlusher _); rewrite <- ?app_assoc; simpl;
      (split_and!;
       [by apply bodyAfterStatus_app
       |intros Hw'; by apply hasStatus_app, Hsome
       |intros Hw'; by apply noBody_app; [apply Hnone|]]).
  - unfold ResponseWriter_Close, orderInvariant. simpl.
    assert (noBody [StreamClose]) as H1
      by (apply noBody_small; by repeat constructor).
    split_and!;
      [by apply bodyAfterStatus_app
      |intros Hw'; by apply hasStatus_app, Hsome
      |intros Hw'; by apply noBody_app; [apply Hnone|]].
Qed.

Lemma runOps_orderInvariant w ops :
  orderInvariant w -> orderInvariant (runOps w ops).
Proof.
  unfold runOps. revert w.
  induction ops as [|o ops IH]; intros w Hw; simpl; [done|].
  by apply IH, runOp_orderInvariant.
Qed.
End CallOrder.

(** X14.  Whatever a handler does with a ResponseWriter after its
    construction (statuses, writes, flushes, header changes, close, in
    any order), no chunk reaches the compressing stream before a status
    has been sent to the wrapped sink: every Write of the stream in the
    history of calls comes after a WriteHeader of the sink. *)
Theorem status_precedes_body `{Externals} :
  forall (w0 : Sink) (r : Request) (level : Z) (w : ResponseWriter)
         (ops : list op) (i : nat) (p : list Byte.byte),
    NewResponseWriter w0 r level = inl w ->
    rwCalls (runOps w ops) !! i = Some (StreamWrite p) ->
    exists (j : nat) (statusCode : Z),
      (j < i)%nat
      /\ rwCalls (runOps w ops) !! j = Some (SinkWriteHeader statusCode).
Proof.
  intros w0 r level w ops i p Hnew Hi.
  destruct (NewResponseWriter_inl w0 r level w Hnew)
    as (_ & _ & _ & _ & Hwrote & Hcalls).
  destruct (runOps_orderInvariant w ops) as (Hbody & _);
    [|exact (Hbody i p Hi)].
  split_and!.
  - intros k q Hk. by rewrite Hcalls in Hk.
  - congruence.
  - intros _ k q Hk. by rewrite Hcalls in Hk.
Qed.

Lemma status_precedes_body_witness :
  exists (j : nat) (statusCode : Z),
    (j < 3)%nat
    /\ rwCalls (runOps (H := acceptingLibraries) exampleWriter
                  [OpFlush; OpWrite [Byte.x68]; OpWriteHeader 404]) !! j
       = Some (SinkWriteHeader statusCode).
Proof.
  apply (status_precedes_body (H := acceptingLibraries)
           exampleSink exampleRequest (-1) exampleWriter
           [OpFlush; OpWrite [Byte.x68]; OpWriteHeader 404] 3 [Byte.x68]).
  - exact NewResponseWriter_example.
  - reflexivity.
Defined.

(** X15.  When the compressing stream refuses a chunk, Write returns 0
    bytes and the error of the stream, whatever count the stream
    reported, and does not flush; by then the Content-Type has been set
    and the status sent, so a later WriteHeader cannot change the
    status.  When the chunk is accepted and the flush of AutoFlush fails,
    Write returns the count of the stream together with the error of the
    flush. *)
Theorem Write_errors `{Externals} :
  forall (w : ResponseWriter) (p : list Byte.byte),
    let calls :=
      rwCalls w
      ++ (if rwWroteHeader w then [] else [SinkWriteHeader StatusOK]) in
    (forall (n : Z) (e : error),
        stream_Write (rwWriter w) calls p = (n, Some e) ->
        snd (ResponseWriter_Write w p) = (0, Some e)
        /\ rwCalls (fst (ResponseWriter_Write w p))
           = calls ++ [StreamWrite p]
        /\ is_Some (rwHeader (fst (ResponseWriter_Write w p))
                      !! ContentTypeHeaderKey)
        /\ (forall statusCode,
              ResponseWriter_WriteHeader (fst (ResponseWriter_Write w p))
                statusCode
              = fst (ResponseWriter_Write w p)))
    /\ (forall (n : Z) (e : error),
        rwAutoFlush w = true ->
        stream_Write (rwWriter w) calls p = (n, None) ->
        stream_Flush (rwWriter w) (calls ++ [StreamWrite p]) = Some e ->
        snd (ResponseWriter_Write w p) = (n, Some e)).
Proof.
  intros w p calls. subst calls. split.
  - intros n e Hw.
    destruct (Write_state w p) as (_ & _ & Hwr & _ & Hcalls).
    rewrite Hw in Hcalls. simpl in Hcalls.
    split_and!.
    + unfold ResponseWriter_Write, ResponseWriter_WriteHeader, rwHeader
        in *.
      destruct w as [cw [h ? ? ? ?] ? ? ? enc lvl af wrote calls].
      simpl in *.
      destruct (h !! ContentTypeHeaderKey); simpl; destruct wrote; simpl;
        rewrite ?app_nil_r in Hw; simpl in Hw; by rewrite Hw.
    + rewrite Hcalls, ?app_nil_r. by rewrite ?app_assoc.
    + rewrite Write_sets_ContentType. done.
    + intros statusCode. unfold ResponseWriter_WriteHeader.
      by rewrite Hwr.
  - intros n e Hflush Hw Hf.
    unfold ResponseWriter_Write, ResponseWriter_WriteHeader, rwHeader in *.
    destruct w as [cw [h ? ? ? ?] ? ? ? enc lvl af wrote calls].
    simpl in *. subst af.
    destruct (h !! ContentTypeHeaderKey); simpl; destruct wrote; simpl;
      rewrite ?app_nil_r in Hw, Hf; simpl in Hw, Hf; rewrite Hw; simpl;
      by rewrite Hf.
Qed.

Lemma Write_errors_witness :
  snd (ResponseWriter_Write (H := refusingStream) exampleWriter [Byte.x68])
  = (0, Some (ErrCodec "closed"))
  /\ snd (ResponseWriter_Write (H := failingFlush) exampleWriter [Byte.x68])
     = (1, Some (ErrCodec "flush")).
Proof.
  split.
  - apply (proj1 (Write_errors (H := refusingStream) exampleWriter
                    [Byte.x68]) 2 (ErrCodec "closed")).
    reflexivity.
  - apply (proj2 (Write_errors (H := failingFlush) exampleWriter
                    [Byte.x68]) 1 (ErrCodec "flush")); reflexivity.
Defined.

(** ** NewReader and the two sides of the registry *)

(** X16.  The outcomes of NewReader.  A nil source or an empty encoding
    gives ErrRequestNotCompressed, whatever the other argument is; with
    both present, an encoding outside gzip, deflate, br, snappy and s2
    gives ErrNotSupportedCompression; for gzip the error of the gzip
    library on the header of the source is returned as it is; in every
    other case a Reader is returned, which records the encoding and keeps
    the source. *)
Theorem NewReader_outcomes `{Externals} :
  forall (src : option Source) (encoding : string),
    (src = None \/ encoding = EmptyString ->
     NewReader src encoding = inr ErrRequestNotCompressed)
    /\ (forall s : Source,
          src = Some s -> encoding <> EmptyString ->
          encoding ∉ offered ->
          NewReader src encoding = inr ErrNotSupportedCompression)
    /\ (forall (s : Source) (e : error),
          src = Some s -> encoding = GZIP -> gzip_NewReader s = Some e ->
          NewReader src encoding = inr e)
    /\ (forall s : Source,
          src = Some s -> encoding ∈ offered ->
          (encoding = GZIP -> gzip_NewReader s = None) ->
          exists rd : Reader,
            NewReader src encoding = inl rd
            /\ rdEncoding rd = encoding
            /\ rdSrc rd = (if srcCloser s then SourceReadCloser s
                           else noOpReadCloser (SourceReader s))).
Proof.
  intros src encoding. split_and!.
  - intros [->| ->]; [done|]. by destruct src.
  - intros s -> Hne Hnot. unfold NewReader.
    apply String.eqb_neq in Hne as ->. unfold offered in Hnot.
    destruct (String.eqb_spec encoding GZIP) as [->|_]; [set_solver|].
    destruct (String.eqb_spec encoding DEFLATE) as [->|_]; [set_solver|].
    destruct (String.eqb_spec encoding BROTLI) as [->|_]; [set_solver|].
    destruct (String.eqb_spec encoding SNAPPY) as [->|_]; [set_solver|].
    destruct (String.eqb_spec encoding S2) as [->|_]; [set_solver|].
    done.
  - intros s e -> -> He. unfold NewReader. simpl. by rewrite He.
  - intros s -> Hin Hgzip. unfold offered in Hin.
    repeat (apply elem_of_cons in Hin as [->|Hin];
            [unfold NewReader; simpl; rewrite ?Hgzip by done;
             eexists; split_and!; reflexivity|]).
    by apply elem_of_nil in Hin.
Qed.

Lemma NewReader_outcomes_witness :
  NewReader (H := acceptingLibraries) None GZIP
  = inr ErrRequestNotCompressed
  /\ NewReader (H := acceptingLibraries) (Some exampleSource) "zstd"
     = inr ErrNotSupportedCompression
  /\ NewReader (H := noGzipHeader) (Some exampleSource) GZIP
     = inr (ErrCodec "gzip: invalid header")
  /\ exists rd : Reader,
       NewReader (H := acceptingLibraries) (Some exampleSource) S2 = inl rd
       /\ rdEncoding rd = S2
       /\ rdSrc rd = SourceReadCloser exampleSource.
Proof.
  split_and!.
  - apply (proj1 (NewReader_outcomes (H := acceptingLibraries) None GZIP)).
    by left.
  - apply (proj1 (proj2 (NewReader_outcomes (H := acceptingLibraries)
                           (Some exampleSource) "zstd")) exampleSource).
    + reflexivity.
    + discriminate.
    + intros Hin. unfold offered in Hin.
      repeat (apply elem_of_cons in Hin as [Heq|Hin]; [discriminate Heq|]).
      by apply elem_of_nil in Hin.
  - apply (proj1 (proj2 (proj2 (NewReader_outcomes (H := noGzipHeader)
                           (Some exampleSource) GZIP))) exampleSource);
      reflexivity.
  - apply (proj2 (proj2 (proj2 (NewReader_outcomes (H := acceptingLibraries)
                           (Some exampleSource) S2))) exampleSource).
    + reflexivity.
    + unfold offered. do 4 (apply elem_of_cons; right).
      apply elem_of_cons. by left.
    + discriminate.
Defined.

(** X17.  The two sides of the registry name the same codecs: an
    encoding for which NewWriter builds a compressing stream is one for
    which NewReader builds a Reader over any source, unless the gzip
    library rejects the header of the source; and an encoding for which
    NewReader builds a Reader is one for which NewWriter builds a stream
    at any level, unless the gzip or flate library refuses the level. *)
Theorem registry_sides_agree `{Externals} :
  forall (encoding : string) (level : Z) (s : Source),
    (forall cw : Writer,
        NewWriter encoding level = inl cw ->
        (exists rd, NewReader (Some s) encoding = inl rd)
        \/ (encoding = GZIP
            /\ exists e, gzip_NewReader s = Some e
                         /\ NewReader (Some s) encoding = inr e))
    /\ (forall rd : Reader,
        NewReader (Some s) encoding = inl rd ->
        (exists cw, NewWriter encoding level = inl cw)
        \/ (encoding = GZIP
            /\ exists e, gzip_NewWriterLevel level = Some e
                         /\ NewWriter encoding level = inr e)
        \/ (encoding = DEFLATE
            /\ exists e, flate_NewWriter level = Some e
                         /\ NewWriter encoding level = inr e)).
Proof.
  intros encoding level s. split.
  - intros cw Hnew. apply NewWriter_supported in Hnew.
    destruct (String.eqb_spec encoding GZIP) as [->|Hne].
    + destruct (gzip_NewReader s) as [e|] eqn:He.
      * right. split; [done|]. exists e. split; [done|].
        unfold NewReader. simpl. by rewrite He.
      * left. unfold NewReader. simpl. rewrite He. by eexists.
    + left.
      destruct (NewReader_outcomes (Some s) encoding)
        as (_ & _ & _ & Hok).
      destruct (Hok s) as (rd & -> & _); [done..|by eexists].
  - intros rd Hrd. unfold NewReader in Hrd. unfold NewWriter.
    destruct (String.eqb encoding ""); [done|].
    destruct (String.eqb_spec encoding GZIP) as [->|_].
    { destruct (gzip_NewWriterLevel level) as [e|] eqn:He.
      - right. left. split; [done|]. by exists e.
      - left. by eexists. }
    destruct (String.eqb_spec encoding DEFLATE) as [->|_].
    { destruct (flate_NewWriter level) as [e|] eqn:He.
      - right. right. split; [done|]. by exists e.
      - left. by eexists. }
    left.
    destruct (String.eqb encoding BROTLI); [by eexists|].
    destruct (String.eqb encoding SNAPPY); [by eexists|].
    destruct (String.eqb encoding S2); [by eexists|done].
Qed.

Lemma registry_sides_agree_witness :
  (exists rd, NewReader (H := acceptingLibraries) (Some exampleSource) BROTLI
              = inl rd)
  \/ (BROTLI = GZIP
      /\ exists e, gzip_NewReader (Externals := acceptingLibraries)
                     exampleSource = Some e
                   /\ NewReader (H := acceptingLibraries)
                        (Some exampleSource) BROTLI = inr e).
Proof.
  apply (proj1 (registry_sides_agree (H := acceptingLibraries)
                  BROTLI (-1) exampleSource) (BrotliWriter 6)).
  reflexivity.
Defined.

(** ** ReadHandler and Handler *)

Section ReadSide.
Context `{Externals}.

Lemma NewReader_close_log src encoding rd log :
  NewReader src encoding = inl rd ->
  exists extra, Reader_Close rd log = log ++ extra
                /\ forall s, closesOfSource s extra = 0%nat.
Proof.
  unfold NewReader, Reader_Close. destruct src as [src|]; [|done].
  destruct (String.eqb encoding ""); [done|].
  destruct (String.eqb encoding GZIP).
  { destruct (gzip_NewReader src); [done|]. intros [= <-]. simpl.
    by exists [CloseGzip src]. }
  destruct (String.eqb encoding DEFLATE).
  { intros [= <-]. simpl. by exists [CloseFlate src]. }
  destruct (String.eqb encoding BROTLI);
    [intros [= <-]; exists []; by rewrite app_nil_r|].
  destruct (String.eqb encoding SNAPPY);
    [intros [= <-]; exists []; by rewrite app_nil_r|].
  destruct (String.eqb encoding S2);
    [intros [= <-]; exists []; by rewrite app_nil_r|done].
Qed.

Lemma NewReader_inl_offered src encoding rd :
  NewReader src encoding = inl rd ->
  encoding ∈ offered /\ rdEncoding rd = encoding
  /\ exists s, src = Some s.
Proof.
  unfold NewReader, offered. destruct src as [src|]; [|done].
  destruct (String.eqb encoding ""); [done|].
  destruct (String.eqb_spec encoding GZIP) as [->|_].
  { destruct (gzip_NewReader src); [done|]. intros [= <-].
    split_and!; [set_solver|done|by eexists]. }
  destruct (String.eqb_spec encoding DEFLATE) as [->|_];
    [intros [= <-]; split_and!; [set_solver|done|by eexists]|].
  destruct (String.eqb_spec encoding BROTLI) as [->|_];
    [intros [= <-]; split_and!; [set_solver|done|by eexists]|].
  destruct (String.eqb_spec encoding SNAPPY) as [->|_];
    [intros [= <-]; split_and!; [set_solver|done|by eexists]|].
  destruct (String.eqb_spec encoding S2) as [->|_];
    [intros [= <-]; split_and!; [set_solver|done|by eexists]|done].
Qed.
End ReadSide.

(** X18.  ReadHandler replaces the body of the request only when it can:
    the handler behind it receives a Reader exactly when the first value
    of Content-Encoding is one of the five codecs, the request has a
    body and NewReader succeeds on them, and the Reader is then the one
    NewReader built for that first value; in every other case (no
    Content-Encoding, an empty or unknown first value, no body, a gzip
    header error) the error is dropped and the handler receives the body
    as it was.  The Close that ReadHandler defers never calls Close on a
    source. *)
Theorem ReadHandler_replaces_body `{Externals} :
  forall r : Request,
    (forall rd : Reader,
        ReadHandler_body r = BodyReader rd
        <-> NewReader (reqBody r)
              (Header_Get (reqHeader r) ContentEncodingHeaderKey) = inl rd)
    /\ (forall rd : Reader,
          ReadHandler_body r = BodyReader rd ->
          rdEncoding rd = Header_Get (reqHeader r) ContentEncodingHeaderKey
          /\ rdEncoding rd ∈ offered
          /\ exists s, reqBody r = Some s)
    /\ ((forall rd, ReadHandler_body r <> BodyReader rd) ->
        ReadHandler_body r = BodySource (reqBody r))
    /\ (forall (log : list closeCall) (s : Source),
          closesOfSource s (ReadHandler_deferred r log)
          = closesOfSource s log).
Proof.
  intros r.
  assert (forall rd : Reader,
            ReadHandler_body r = BodyReader rd
            <-> NewReader (reqBody r)
                  (Header_Get (reqHeader r) ContentEncodingHeaderKey)
                = inl rd) as Hiff.
  { intros rd. unfold ReadHandler_body.
    destruct (String.eqb_spec
                (Header_Get (reqHeader r) ContentEncodingHeaderKey) "")
      as [->|Hne]; simpl.
    - split; [done|]. intros Hnew. by destruct (reqBody r).
    - destruct (NewReader _ _) as [rd'|err]; split; congruence. }
  split_and!; [done| | |].
  - intros rd Hrd%Hiff.
    destruct (NewReader_inl_offered _ _ _ Hrd) as (Hin & Henc & Hs).
    by rewrite Henc.
  - intros Hnot. unfold ReadHandler_body in *.
    destruct (negb _); [|done].
    destruct (NewReader _ _) as [rd|err]; [|done]. by destruct (Hnot rd).
  - intros log s. unfold ReadHandler_deferred.
    destruct (ReadHandler_body r) as [src|rd]; [done|].
    pose proof (proj1 (Hiff rd) eq_refl) as Hnew.
    destruct (NewReader_close_log _ _ rd log Hnew) as (extra & -> & Hx).
    by rewrite closesOfSource_app, Hx, Nat.add_0_r.
Qed.

Lemma ReadHandler_replaces_body_witness :
  rdEncoding
    {| rdReadCloser := GzipReader exampleSource;
       rdSrc := SourceReadCloser exampleSource;
       rdEncoding := GZIP |}
  = Header_Get {[ ContentEncodingHeaderKey := ["gzip"; "br"] ]}
      ContentEncodingHeaderKey
  /\ ReadHandler_body (H := noGzipHeader)
       {| reqHeader := {[ ContentEncodingHeaderKey := ["gzip"] ]};
          reqBody := Some exampleSource |}
     = BodySource (Some exampleSource).
Proof.
  split.
  - assert (ReadHandler_body (H := acceptingLibraries)
              {| reqHeader :=
                   {[ ContentEncodingHeaderKey := ["gzip"; "br"] ]};
                 reqBody := Some exampleSource |}
            = BodyReader
                {| rdReadCloser := GzipReader exampleSource;
                   rdSrc := SourceReadCloser exampleSource;
                   rdEncoding := GZIP |}) as Hbody
      by (vm_compute; reflexivity).
    exact (proj1 (proj1 (proj2 (ReadHandler_replaces_body
             (H := acceptingLibraries)
             {| reqHeader := {[ ContentEncodingHeaderKey := ["gzip"; "br"] ]};
                reqBody := Some exampleSource |})) _ Hbody)).
  - apply (proj1 (proj2 (proj2 (ReadHandler_replaces_body
             (H := noGzipHeader)
             {| reqHeader := {[ ContentEncodingHeaderKey := ["gzip"] ]};
                reqBody := Some exampleSource |})))).
    intros rd. vm_compute. discriminate.
Defined.

(** X19.  Handler, that is WriteHandler around ReadHandler, treats the
    two directions independently: whether the body is replaced depends
    on Content-Encoding and the body only, not on whether the response
    is compressed, and the deletion of Accept-Encoding does not touch
    Content-Encoding, which the inner handler still sees.  The inner
    handler runs on the compressing writer, with Accept-Encoding deleted,
    when NewResponseWriter succeeds, and on the original writer and
    headers when it fails; in both cases with the body ReadHandler
    gives. *)
Theorem CompressHandler_composes `{Externals} :
  forall (next : BodyHandler) (w : Sink) (r : Request),
    let r' := Request_delHeader r AcceptEncodingHeaderKey in
    ReadHandler_body r' = ReadHandler_body r
    /\ reqHeader r' !! ContentEncodingHeaderKey
       = reqHeader r !! ContentEncodingHeaderKey
    /\ (forall cr : ResponseWriter,
          NewResponseWriter w r (-1) = inl cr ->
          CompressHandler next w r
          = (let '(cr', r'') :=
               ServeCompressedBody next cr r' (ReadHandler_body r) in
             ServedCompressed (ResponseWriter_Close cr') r''))
    /\ (forall err : error,
          NewResponseWriter w r (-1) = inr err ->
          CompressHandler next w r
          = (let '(w', r'') := ServeRawBody next w r (ReadHandler_body r) in
             ServedRaw w' r'')).
Proof.
  intros next w r r'.
  assert (reqHeader r' !! ContentEncodingHeaderKey
          = reqHeader r !! ContentEncodingHeaderKey) as Hce
    by (by apply lookup_delete_ne).
  assert (ReadHandler_body r' = ReadHandler_body r) as Hbody.
  { unfold ReadHandler_body, Header_Get, Header_Values. by rewrite Hce. }
  split_and!; [done..| |].
  - intros cr Hnew. unfold CompressHandler, WriteHandler. rewrite Hnew.
    simpl. fold r'. by rewrite Hbody.
  - intros err Hnew. unfold CompressHandler, WriteHandler. by rewrite Hnew.
Qed.

Lemma CompressHandler_composes_witness :
  CompressHandler (H := acceptingLibraries)
    {| ServeRawBody := fun w r _ => (w, r);
       ServeCompressedBody := fun cr r _ => (cr, r) |}
    exampleSink bareRequest
  = ServedRaw exampleSink bareRequest.
Proof.
  apply (proj2 (proj2 (proj2 (CompressHandler_composes
           (H := acceptingLibraries)
           {| ServeRawBody := fun w r _ => (w, r);
              ServeCompressedBody := fun cr r _ => (cr, r) |}
           exampleSink bareRequest))) ErrResponseNotCompressed).
  reflexivity.
Defined.

(** ** Flush *)

Section FlushOrder.
Context `{Externals}.

Definition flushOrder (calls : list call) : Prop :=
  forall i, calls !! i = Some SinkFlush ->
    exists j, i = S j /\ calls !! j = Some StreamFlush.

Lemma flushOrder_app calls extra :
  flushOrder calls -> flushOrder extra -> flushOrder (calls ++ extra).
Proof.
  intros Hcalls Hextra i [Hi|[Hlen Hi]]%lookup_app_Some.
  - destruct (Hcalls i Hi) as (j & -> & Hj).
    exists j. split; [done|]. by apply lookup_app_l_Some.
  - destruct (Hextra _ Hi) as (j & Hij & Hj).
    exists (length calls + j)%nat. split; [lia|].
    rewrite lookup_app_r by lia. by replace (length calls + j - length calls)%nat
      with j by lia.
Qed.

Lemma flushOrder_none (extra : list call) :
  Forall (fun c => c <> SinkFlush) extra -> flushOrder extra.
Proof.
  intros Hall i Hi. rewrite Forall_lookup in Hall.
  by destruct (Hall i _ Hi).
Qed.

Lemma runOp_flushOrder w o :
  flushOrder (rwCalls w) -> flushOrder (rwCalls (runOp w o)).
Proof.
  intros Hw.
  destruct o as [code|p| | |key value|key]; unfold runOp; [| | | |done..].
  - unfold ResponseWriter_WriteHeader.
    destruct (negb (rwWroteHeader w)); [|done]. simpl.
    apply flushOrder_app; [done|]. apply flushOrder_none.
    by repeat constructor.
  - destruct (Write_state w p) as (_ & _ & _ & _ & ->).
    repeat apply flushOrder_app; try done; apply flushOrder_none.
    + destruct (rwWroteHeader w); by repeat constructor.
    + by repeat constructor.
    + destruct (snd _); [constructor|].
      destruct (rwAutoFlush w); by repeat constructor.
  - unfold ResponseWriter_Flush. simpl.
    destruct (sinkFlusher _).
    + rewrite <- app_assoc. apply flushOrder_app; [done|].
      intros [|[|i]] Hi; [done| |done]. by exists 0%nat.
    + apply flushOrder_app; [done|]. apply flushOrder_none.
      by repeat constructor.
  - unfold ResponseWriter_Close. simpl.
    apply flushOrder_app; [done|]. apply flushOrder_none.
    by repeat constructor.
Qed.

Lemma runOps_flushOrder w ops :
  flushOrder (rwCalls w) -> flushOrder (rwCalls (runOps w ops)).
Proof.
  unfold runOps. revert w.
  induction ops as [|o ops IH]; intros w Hw; simpl; [done|].
  by apply IH, runOp_flushOrder.
Qed.
End FlushOrder.

(** X20.  The wrapped sink is flushed only by Flush, and never with data
    still held by the compressing stream: whatever a handler does with a
    ResponseWriter after its construction, every Flush of the sink in
    the history of calls comes right after a Flush of the compressing
    stream. *)
Theorem sink_flush_follows_stream_flush `{Externals} :
  forall (w0 : Sink) (r : Request) (level : Z) (w : ResponseWriter)
         (ops : list op) (i : nat),
    NewResponseWriter w0 r level = inl w ->
    rwCalls (runOps w ops) !! i = Some SinkFlush ->
    exists j : nat,
      i = S j /\ rwCalls (runOps w ops) !! j = Some StreamFlush.
Proof.
  intros w0 r level w ops i Hnew Hi.
  destruct (NewResponseWriter_inl w0 r level w Hnew)
    as (_ & _ & _ & _ & _ & Hcalls).
  apply (runOps_flushOrder w ops); [|done].
  rewrite Hcalls. by intros k Hk.
Qed.

Lemma sink_flush_follows_stream_flush_witness :
  exists j : nat,
    4%nat = S j
    /\ rwCalls (runOps (H := acceptingLibraries) exampleWriter
                  [OpWrite [Byte.x68]; OpFlush]) !! j
       = Some StreamFlush.
Proof.
  apply (sink_flush_follows_stream_flush (H := acceptingLibraries)
           exampleSink exampleRequest (-1) exampleWriter
           [OpWrite [Byte.x68]; OpFlush] 4).
  - exact NewResponseWriter_example.
  - reflexivity.
Defined.
